(** * Timesheet: weekly cap enforcement and dashboard aggregation

    A shallow embedding of the pure logic of [src/src/TimesheetApp.jsx]
    and [src/src/Dashboard.jsx], followed by the properties the
    specification states about it.

    Conventions of the embedding.
    - JavaScript scalars are the inductive [JsVal].  Numbers are the
      integer-valued doubles (hours are integers throughout the program)
      plus [NaN], which the idiom [Number(x) || 0] depends on; arithmetic
      on them is exact below 2^53, so it is arithmetic on [Z].  The one
      place where the program divides, the percentage of
      [monthlyProportion], is evaluated on IEEE binary64 ([PrimFloat]).
      [Number] reads every numeric literal of the language; a string
      that denotes a fraction or an infinity has no number here, and
      [integral] tells the scalars that [Number] reads exactly.
    - [JsAny] adds the [Symbol] to the scalars, the primitive on which
      [Number] raises; [sumWeek], which is exported and takes any
      object, is modelled on it.
    - JavaScript strings are [string], read as the UTF-8 encoding of the
      text.
    - Plain data objects (staging entries, database rows) are finite maps
      from property names to scalars; a missing property reads as
      [undefined].
    - A JavaScript [Map] or [Set], whose iteration order is the insertion
      order, is an association list or a duplicate-free list.
    - React state setters are the state transformers they are given. *)

From Stdlib Require Import ZArith Lia Ascii String Floats Rbase Rfunctions Lra.
From Stdlib Require Import Numbers.Cyclic.Int63.Uint63.
From stdpp Require Import gmap strings list pretty sorting.

Local Open Scope string_scope.
Local Open Scope Z_scope.

(** ** JavaScript values and coercions *)

Module Js.

Inductive JsVal :=
| JsUndefined
| JsNull
| JsBool (b : bool)
| JsNaN
| JsInt (z : Z)
| JsStr (s : string).

#[global] Instance JsVal_eq_dec : EqDecision JsVal.
Proof. solve_decision. Defined.

(** ToBoolean: [undefined], [null], [false], [0], [NaN] and [""] are falsy. *)
Definition truthy (v : JsVal) : bool :=
  match v with
  | JsUndefined | JsNull | JsNaN => false
  | JsBool b => b
  | JsInt z => negb (z =? 0)
  | JsStr s => negb (bool_decide (s = ""))
  end.

(** [a || b] *)
Definition or_else (a b : JsVal) : JsVal := if truthy a then a else b.

(** [a === b]: equal values of the same type, except that NaN is not
    equal to itself. *)
Definition strict_eq (a b : JsVal) : bool :=
  match a with
  | JsNaN => false
  | _ => bool_decide (a = b)
  end.

(** SameValueZero, the key equality of [Map] and [Set]. *)
Definition same_value_zero (a b : JsVal) : bool := bool_decide (a = b).

Definition code (a : ascii) : Z := Z.of_N (N_of_ascii a).

(** WhiteSpace and LineTerminator code points, in UTF-8: one byte
    (TAB, LF, VT, FF, CR, SP), two bytes (U+00A0) or three bytes
    (U+1680, U+2000..U+200A, U+2028, U+2029, U+202F, U+205F, U+3000,
    U+FEFF). *)
Definition ws1 (a : ascii) : bool :=
  let c := code a in ((9 <=? c) && (c <=? 13)) || (c =? 32).
Definition ws2 (a b : ascii) : bool :=
  (code a =? 194) && (code b =? 160).
Definition ws3 (a b c : ascii) : bool :=
  let '(x, y, z) := (code a, code b, code c) in
  ((x =? 225) && (y =? 154) && (z =? 128))
  || ((x =? 226) && (y =? 128)
      && (((128 <=? z) && (z <=? 138)) || (z =? 168) || (z =? 169) || (z =? 175)))
  || ((x =? 226) && (y =? 129) && (z =? 159))
  || ((x =? 227) && (y =? 128) && (z =? 128))
  || ((x =? 239) && (y =? 187) && (z =? 191)).

Fixpoint trimStart (s : string) : string :=
  match s with
  | String a r =>
      if ws1 a then trimStart r
      else match r with
           | String b r2 =>
               if ws2 a b then trimStart r2
               else match r2 with
                    | String c r3 => if ws3 a b c then trimStart r3 else s
                    | EmptyString => s
                    end
           | EmptyString => s
           end
  | EmptyString => s
  end.

(** The same on the reversed string, where the bytes of a code point
    come last byte first. *)
Fixpoint trimStart_rev (s : string) : string :=
  match s with
  | String a r =>
      if ws1 a then trimStart_rev r
      else match r with
           | String b r2 =>
               if ws2 b a then trimStart_rev r2
               else match r2 with
                    | String c r3 => if ws3 c b a then trimStart_rev r3 else s
                    | EmptyString => s
                    end
           | EmptyString => s
           end
  | EmptyString => s
  end.

Definition trimEnd (s : string) : string := String.rev (trimStart_rev (String.rev s)).
Definition trim (s : string) : string := trimEnd (trimStart s).

Definition digit (radix : Z) (a : ascii) : option Z :=
  let c := code a in
  let v := if (48 <=? c) && (c <=? 57) then c - 48
           else if (97 <=? c) && (c <=? 122) then c - 87
           else if (65 <=? c) && (c <=? 90) then c - 55
           else radix in
  if v <? radix then Some v else None.

(** The longest prefix of digits of [s] in the given radix, read as a
    number: [None] when [s] does not start with a digit, otherwise the
    value and the rest of the string. *)
Fixpoint digits_go (radix : Z) (acc : Z) (s : string) : Z * string :=
  match s with
  | String a r =>
      match digit radix a with
      | Some d => digits_go radix (acc * radix + d) r
      | None => (acc, s)
      end
  | EmptyString => (acc, s)
  end.

Definition digits (radix : Z) (s : string) : option (Z * string) :=
  match s with
  | String a _ =>
      match digit radix a with
      | Some _ => Some (digits_go radix 0 s)
      | None => None
      end
  | EmptyString => None
  end.

Definition sign_of (s : string) : Z * string :=
  match s with
  | String "-" r => (-1, r)
  | String "+" r => (1, r)
  | _ => (1, s)
  end.

(** [parseInt(s, 10)]: leading white space, an optional sign, then the
    longest run of decimal digits; [None] is NaN. *)
Definition parseInt (s : string) : option Z :=
  let '(sg, r) := sign_of (trimStart s) in
  match digits 10 r with
  | Some (n, _) => Some (sg * n)
  | None => None
  end.

(** A string that is a run of digits and nothing else. *)
Definition whole (radix : Z) (s : string) : option Z :=
  match digits radix s with
  | Some (n, "") => Some n
  | _ => None
  end.

(** ExponentPart, or nothing: [e] or [E], an optional sign, digits. *)
Definition exponent (s : string) : option Z :=
  match s with
  | "" => Some 0
  | String x r =>
      if bool_decide (x = "e"%char ∨ x = "E"%char) then
        let '(sg, r') := sign_of r in
        match whole 10 r' with
        | Some n => Some (sg * n)
        | None => None
        end
      else None
  end.

Definition len (s : string) : Z := Z.of_nat (String.length s).

(** StrUnsignedDecimalLiteral other than [Infinity]: digits, an
    optional point with optional digits, an optional exponent; or a
    point, digits, an optional exponent.  The literal [d1 . d2 e x]
    denotes [m * 10^e] for the mantissa [m = d1 d2] and
    [e = x - length d2]. *)
Definition decimal (s : string) : option (Z * Z) :=
  let '(ip, r1) := digits_go 10 0 s in
  let int_digits := len s - len r1 in
  match r1 with
  | String "." r2 =>
      let '(m, r3) := digits_go 10 ip r2 in
      let frac_digits := len r2 - len r3 in
      if 0 <? int_digits + frac_digits then
        match exponent r3 with
        | Some e => Some (m, e - frac_digits)
        | None => None
        end
      else None
  | _ =>
      if 0 <? int_digits then
        match exponent r1 with
        | Some e => Some (ip, e)
        | None => None
        end
      else None
  end.

(** What a string denotes as a StringNumericLiteral, exactly. *)
Inductive Numeric :=
| NotNumeric
| Infinite (negative : bool)
| Decimal (m e : Z).

Definition of_whole (n : option Z) : Numeric :=
  match n with
  | Some n => Decimal n 0
  | None => NotNumeric
  end.

Definition of_decimal (sg : Z) (d : option (Z * Z)) : Numeric :=
  match d with
  | Some (m, e) => Decimal (sg * m) e
  | None => NotNumeric
  end.

(** The radix and the digits of a literal with prefix [0x], [0o] or
    [0b]. *)
Definition prefixed (t : string) : option (Z * string) :=
  match t with
  | String z (String x r) =>
      if bool_decide (z = "0"%char) then
        if bool_decide (x = "x"%char ∨ x = "X"%char) then Some (16, r)
        else if bool_decide (x = "o"%char ∨ x = "O"%char) then Some (8, r)
        else if bool_decide (x = "b"%char ∨ x = "B"%char) then Some (2, r)
        else None
      else None
  | _ => None
  end.

(** The trimmed string is empty (0), an unsigned integer with a radix
    prefix, or a signed decimal literal or [Infinity]. *)
Definition StringNumericLiteral (s : string) : Numeric :=
  let t := trim s in
  if bool_decide (t = "") then Decimal 0 0
  else match prefixed t with
       | Some (radix, r) => of_whole (whole radix r)
       | None =>
           let '(sg, r) := sign_of t in
           if bool_decide (r = "Infinity") then Infinite (sg <? 0)
           else of_decimal sg (decimal r)
       end.

(** [m * 10^e] when that is an integer. *)
Definition integer_value (m e : Z) : option Z :=
  if 0 <=? e then Some (m * 10 ^ e)
  else if m mod 10 ^ (- e) =? 0 then Some (m / 10 ^ (- e))
  else None.

(** StringToNumber; [None] is NaN.  A string that is not a numeric
    literal is NaN, a literal that denotes an integer is that integer.
    A literal that denotes a fraction or [Infinity] has no counterpart
    among the numbers of this embedding and is read as NaN as well:
    [integral] tells where the reading is the one of the language. *)
Definition StringToNumber (s : string) : option Z :=
  match StringNumericLiteral s with
  | Decimal m e => integer_value m e
  | NotNumeric | Infinite _ => None
  end.

(** [Number(v)]; [None] is NaN. *)
Definition ToNumber (v : JsVal) : option Z :=
  match v with
  | JsUndefined | JsNaN => None
  | JsNull => Some 0
  | JsBool b => Some (if b then 1 else 0)
  | JsInt z => Some z
  | JsStr s => StringToNumber s
  end.

(** [Number(v) || 0]: NaN and 0 both give 0. *)
Definition number_or_0 (v : JsVal) : Z := default 0 (ToNumber v).

(** The scalars whose conversion by [ToNumber] is the one of the
    language: every scalar but a string that denotes a fraction, an
    infinity or an integer of magnitude 2^53 or more. *)
Definition integral (v : JsVal) : bool :=
  match v with
  | JsStr s =>
      match StringNumericLiteral s with
      | NotNumeric => true
      | Infinite _ => false
      | Decimal m e =>
          match integer_value m e with
          | Some z => Z.abs z <? 2 ^ 53
          | None => false
          end
      end
  | _ => true
  end.

(** A property value of an arbitrary object, as far as [Number] tells
    values apart: a scalar, or a [Symbol], the primitive whose
    conversion to a number raises a [TypeError]. *)
Inductive JsAny :=
| Scalar (v : JsVal)
| JsSymbol.

(** [Number(v)] on such a value; the outer [None] is the raised
    [TypeError], the inner one NaN. *)
Definition Number_of (v : JsAny) : option (option Z) :=
  match v with
  | Scalar v => Some (ToNumber v)
  | JsSymbol => None
  end.

(** [String(v)], also the conversion of template literals. *)
Definition ToString (v : JsVal) : string :=
  match v with
  | JsUndefined => "undefined"
  | JsNull => "null"
  | JsBool b => if b then "true" else "false"
  | JsNaN => "NaN"
  | JsInt z => pretty z
  | JsStr s => s
  end.

(** The length of [s] in UTF-16 code units, counted on its UTF-8 bytes:
    a continuation byte adds nothing and the first byte of a four-byte
    sequence stands for a surrogate pair. *)
Fixpoint utf16_length (s : string) : nat :=
  match s with
  | EmptyString => 0
  | String a r =>
      let c := code a in
      let units := if (128 <=? c) && (c <? 192) then 0%nat
                   else if 240 <=? c then 2%nat else 1%nat in
      (units + utf16_length r)%nat
  end.

(** [s.padStart(n, "0")] *)
Definition padStart0 (n : nat) (s : string) : string :=
  String.concat "" (replicate (n - utf16_length s) "0") +:+ s.

Fixpoint prefix_of (p s : string) : option string :=
  match p, s with
  | EmptyString, _ => Some s
  | String a p', String b s' => if bool_decide (a = b) then prefix_of p' s' else None
  | _, _ => None
  end.

(** [s.includes(p)] *)
Fixpoint includes (s p : string) : bool :=
  match prefix_of p s with
  | Some _ => true
  | None => match s with
            | String _ r => includes r p
            | EmptyString => false
            end
  end.

End Js.

(** ** Containers and objects *)

Module JsData.
Import Js.

(** A plain data object: own properties only. *)
Abbreviation obj := (gmap string JsVal).

(** [o[k]] *)
Definition get (o : obj) (k : string) : JsVal := default JsUndefined (o !! k).

(** [o?.[k]], where [None] is a [null] or [undefined] object. *)
Definition get_opt (o : option obj) (k : string) : JsVal :=
  match o with
  | Some m => get m k
  | None => JsUndefined
  end.

(** An object whose properties may also hold a [Symbol], and [o?.[k]]
    on it. *)
Abbreviation any_obj := (gmap string JsAny).

Definition get_any (o : option any_obj) (k : string) : JsAny :=
  match o with
  | Some m => default (Scalar JsUndefined) (m !! k)
  | None => Scalar JsUndefined
  end.

(** [Map]: association list in insertion order, keys compared by
    SameValueZero. *)
Definition JsMap (V : Type) := list (JsVal * V).

Fixpoint map_get {V} (k : JsVal) (m : JsMap V) : option V :=
  match m with
  | [] => None
  | (k', v) :: m' => if same_value_zero k' k then Some v else map_get k m'
  end.

Fixpoint map_set {V} (k : JsVal) (v : V) (m : JsMap V) : JsMap V :=
  match m with
  | [] => [(k, v)]
  | (k', v') :: m' =>
      if same_value_zero k' k then (k', v) :: m' else (k', v') :: map_set k v m'
  end.

Definition map_has {V} (k : JsVal) (m : JsMap V) : bool :=
  match map_get k m with Some _ => true | None => false end.

(** [Set]: the elements in insertion order; [size] is the length. *)
Definition set_add (x : JsVal) (s : list JsVal) : list JsVal :=
  if existsb (same_value_zero x) s then s else (s ++ [x])%list.

(** [Array.prototype.sort(cmp)]: the stable sort; [x] goes after [y]
    exactly when [cmp x y > 0]. *)
Fixpoint insert {A} (cmp : A → A → Z) (x : A) (l : list A) : list A :=
  match l with
  | [] => [x]
  | y :: l' => if 0 <? cmp x y then y :: insert cmp x l' else x :: l
  end.

Definition sort {A} (cmp : A → A → Z) (l : list A) : list A :=
  foldr (insert cmp) [] l.

(** The comparison of the default [sort()] on strings. *)
Definition string_cmp (a b : string) : Z :=
  match String.compare a b with
  | Lt => -1
  | Eq => 0
  | Gt => 1
  end.

(** [s.split(sep)] for a non-empty separator; [skip] counts the
    characters of a separator just matched that are still to be
    dropped, [cur] is the current piece, reversed. *)
Fixpoint split_go (sep : string) (skip : nat) (cur : string) (s : string) : list string :=
  match s with
  | EmptyString => [String.rev cur]
  | String a r =>
      match skip with
      | S n => split_go sep n cur r
      | O =>
          match prefix_of sep s with
          | Some _ => String.rev cur :: split_go sep (String.length sep - 1) "" r
          | None => split_go sep 0 (String a cur) r
          end
      end
  end.

Definition split (sep s : string) : list string := split_go sep 0 "" s.

End JsData.

(** ** TimesheetApp.jsx *)

Module Timesheet.
Import Js JsData.

Definition DAYS : list string := ["Mon"; "Tue"; "Wed"; "Thu"; "Fri"].

(** [DAYS.reduce((s, d) => s + (Number(entry?.[d]) || 0), 0)] on an
    arbitrary entry; [None] is the [TypeError] that [Number] raises. *)
Definition sumWeek (entry : option any_obj) : option Z :=
  fold_left (λ acc d,
               s ← acc;
               n ← Number_of (get_any entry d);
               Some (s + default 0 n))
            DAYS (Some 0).

Definition allowedAfterCap (otherRowsTotal thisOtherDays candidate : Z) : Z :=
  let used := otherRowsTotal + thisOtherDays in
  let left := Z.max 0 (40 - used) in
  Z.min left (Z.max 0 candidate).

(** The part of the component state the functions below read and
    write.  [editingValues = None] is [null]. *)
Record State := mkState {
  person : JsVal;
  selectedYear : Z;
  selectedWeek : Z;
  entries : list obj;
  db : list obj;
  toast : string;
  editingId : JsVal;
  editingValues : option obj;
}.

Definition setEntries (f : list obj → list obj) (st : State) : State :=
  mkState (person st) (selectedYear st) (selectedWeek st) (f (entries st))
          (db st) (toast st) (editingId st) (editingValues st).
Definition setDb (f : list obj → list obj) (st : State) : State :=
  mkState (person st) (selectedYear st) (selectedWeek st) (entries st)
          (f (db st)) (toast st) (editingId st) (editingValues st).
Definition setToastMsg (msg : string) (st : State) : State :=
  mkState (person st) (selectedYear st) (selectedWeek st) (entries st)
          (db st) msg (editingId st) (editingValues st).
Definition setEditingId (v : JsVal) (st : State) : State :=
  mkState (person st) (selectedYear st) (selectedWeek st) (entries st)
          (db st) (toast st) v (editingValues st).
Definition setEditingValues (f : option obj → option obj) (st : State) : State :=
  mkState (person st) (selectedYear st) (selectedWeek st) (entries st)
          (db st) (toast st) (editingId st) (f (editingValues st)).

(** [entries.reduce((acc, e) => acc + DAYS.reduce((s, d) => s + (Number(e[d]) || 0), 0), 0)] *)
Definition entryTotal (e : obj) : Z :=
  fold_left (λ s d, s + number_or_0 (get e d)) DAYS 0.
Definition totalWeekHours (es : list obj) : Z :=
  fold_left (λ acc e, acc + entryTotal e) es 0.

(** The callback [updateEntry] maps over [prev]: the new row, and
    whether the cap notice was raised for it. *)
Definition updateEntry_row (prev : list obj) (id : JsVal) (field value : string)
    (e : obj) : obj * bool :=
  if negb (strict_eq (get e "id") id) then (e, false)
  else
    let next := e in
    if bool_decide (field ∈ DAYS) then
      if bool_decide (value = "") then (<[field := JsStr ""]> next, false)
      else
        let numeric := default 0 (parseInt value) in
        let numeric := Z.max 0 (Z.min 24 numeric) in
        let otherRowsTotal :=
          fold_left (λ acc r, acc + fold_left (λ s d, s + number_or_0 (get r d)) DAYS 0)
                    (List.filter (λ r, negb (strict_eq (get r "id") id)) prev) 0 in
        let thisOtherDays :=
          fold_left (λ s d, s + number_or_0 (get next d))
                    (List.filter (λ d, negb (bool_decide (d = field))) DAYS) 0 in
        let proposed := otherRowsTotal + thisOtherDays + numeric in
        if 40 <? proposed then
          let allowed := Z.max 0 (40 - (otherRowsTotal + thisOtherDays)) in
          (<[field := JsInt allowed]> next, true)
        else (<[field := JsInt numeric]> next, false)
    else (<[field := JsStr value]> next, false).

Definition updateEntry (id : JsVal) (field value : string) (st : State) : State :=
  let rs := map (updateEntry_row (entries st) id field value) (entries st) in
  let st := setEntries (λ _, map fst rs) st in
  if existsb snd rs then setToastMsg "Limite semanal de 40h atingido." st else st.

(** [uid()] is random: the fresh identifier is an argument. *)
Definition duplicateRow (uid : JsVal) (id : JsVal) (st : State) : State :=
  setEntries (λ prev,
    match List.find (λ e, strict_eq (get e "id") id) prev with
    | None => prev
    | Some found => (prev ++ [<["id" := uid]> found])%list
    end) st.

Definition toTwo (n : Z) : string := padStart0 2 (ToString (JsInt n)).

(** The row [appendToDatabase] builds from the staging entry [e] at
    index [idx], when its total is positive. *)
Definition commitRow (createdAt weekStartStr : string) (st : State)
    (idx : nat) (e : obj) : list obj :=
  let mon := number_or_0 (get e "Mon") in
  let tue := number_or_0 (get e "Tue") in
  let wed := number_or_0 (get e "Wed") in
  let thu := number_or_0 (get e "Thu") in
  let fri := number_or_0 (get e "Fri") in
  let total := mon + tue + wed + thu + fri in
  if 0 <? total then
    [ list_to_map
        [ ("ID", JsStr (ToString (JsInt (selectedYear st)) +:+ "-" +:+ toTwo (selectedWeek st)
                        +:+ "-" +:+ ToString (person st) +:+ "-"
                        +:+ ToString (JsInt (Z.of_nat idx + 1))));
          ("Year", JsInt (selectedYear st)); ("ISO_Week", JsInt (selectedWeek st));
          ("Week_Start", JsStr weekStartStr); ("Person", person st);
          ("Project", get e "project"); ("Business_Unit", get e "businessUnit");
          ("Mon", JsInt mon); ("Tue", JsInt tue); ("Wed", JsInt wed);
          ("Thu", JsInt thu); ("Fri", JsInt fri); ("Sat", JsInt 0); ("Sun", JsInt 0);
          ("Total", JsInt total); ("Notes", or_else (get e "notes") (JsStr ""));
          ("Created_At", JsStr createdAt) ] ]
  else [].

(** [appendToDatabase], up to the update of the in-memory database;
    the clock reading [createdAt] and the formatted Monday
    [weekStartStr] are arguments.  The notice is the one of the
    client-only mode (no remote store configured). *)
Definition appendToDatabase (createdAt weekStartStr : string) (st : State) : State :=
  if negb (truthy (person st)) then setToastMsg "Selecione a pessoa antes de salvar." st
  else
    let rows := mjoin (imap (commitRow createdAt weekStartStr st) (entries st)) in
    let st := setDb (λ prev, (prev ++ rows)%list) st in
    setToastMsg (pretty (length rows) +:+ " registro(s) adicionado(s) à base.") st.

Definition mapFromSupabase (r : obj) : obj :=
  list_to_map
    [ ("ID", get r "id"); ("Year", get r "year"); ("ISO_Week", get r "iso_week");
      ("Week_Start", get r "week_start"); ("Person", get r "person");
      ("Project", get r "project"); ("Business_Unit", get r "business_unit");
      ("Mon", get r "mon"); ("Tue", get r "tue"); ("Wed", get r "wed");
      ("Thu", get r "thu"); ("Fri", get r "fri"); ("Sat", get r "sat");
      ("Sun", get r "sun"); ("Total", get r "total"); ("Notes", get r "notes");
      ("Created_At", get r "created_at") ].

(** [loadFromSupabaseForWeek] on a successful answer [data] of the
    remote store. *)
Definition loadFromSupabaseForWeek (data : list obj) (st : State) : State :=
  let rows := map mapFromSupabase data in
  let st := setDb (λ _, rows) st in
  setToastMsg ("Carregado(s) " +:+ pretty (length rows) +:+ " registro(s) do Supabase.") st.

Definition startEditRow (row : obj) (st : State) : State :=
  setEditingValues (λ _, Some row) (setEditingId (get row "ID") st).
Definition cancelEditRow (st : State) : State :=
  setEditingValues (λ _, None) (setEditingId JsNull st).
Definition changeEditing (field value : string) (st : State) : State :=
  setEditingValues (λ prev, Some (<[field := JsStr value]> (default ∅ prev))) st.

(** [saveEditRow] when the remote update, if any, succeeded. *)
Definition saveEditRow (st : State) : State :=
  match editingValues st with
  | Some ev =>
      if negb (truthy (editingId st)) then st
      else
        let st := setDb (map (λ r, if strict_eq (get r "ID") (editingId st) then ev else r)) st in
        cancelEditRow (setToastMsg "Registro atualizado." st)
  | None => st
  end.

(** *** Rows of the staging area and of the database *)

(** [blankEntry()]; the identifier drawn by [uid()] and the values of
    [projects[0] || ""] and [bus[0] || ""] are arguments. *)
Definition blankEntry (uid project businessUnit : JsVal) : obj :=
  list_to_map
    [ ("id", uid); ("project", project); ("businessUnit", businessUnit);
      ("Mon", JsStr ""); ("Tue", JsStr ""); ("Wed", JsStr ""); ("Thu", JsStr "");
      ("Fri", JsStr ""); ("notes", JsStr "") ].

Definition addRow (blank : obj) (st : State) : State :=
  setEntries (λ p, (p ++ [blank])%list) st.

(** [removeRow]; [ok] is the answer of [window.confirm], [true] where
    there is no window. *)
Definition removeRow (ok : bool) (id : JsVal) (st : State) : State :=
  setEntries (λ p,
    if bool_decide (length p = 1%nat) then p
    else if negb ok then p
    else List.filter (λ e, negb (strict_eq (get e "id") id)) p) st.

Definition clearEntries (blank : obj) (st : State) : State :=
  setEntries (λ _, [blank]) st.

(** [dayTotals]: the object of the five running sums, updated row by
    row and, in [dayTotals_add], day by day. *)
Definition dayTotals_add (totals : gmap string Z) (e : obj) : gmap string Z :=
  fold_left (λ totals d, <[d := default 0 (totals !! d) + number_or_0 (get e d)]> totals)
            DAYS totals.

Definition dayTotals (es : list obj) : gmap string Z :=
  fold_left dayTotals_add es
            (list_to_map [("Mon", 0); ("Tue", 0); ("Wed", 0); ("Thu", 0); ("Fri", 0)]).


(** [mapToSupabase]: the columns sent to the remote table; [total] is
    generated there and is not among them. *)
Definition mapToSupabase (row : obj) : obj :=
  list_to_map
    [ ("id", get row "ID"); ("year", get row "Year"); ("iso_week", get row "ISO_Week");
      ("week_start", get row "Week_Start"); ("person", get row "Person");
      ("project", get row "Project"); ("business_unit", get row "Business_Unit");
      ("mon", get row "Mon"); ("tue", get row "Tue"); ("wed", get row "Wed");
      ("thu", get row "Thu"); ("fri", get row "Fri"); ("sat", get row "Sat");
      ("sun", get row "Sun"); ("notes", get row "Notes");
      ("created_at", get row "Created_At") ].

End Timesheet.

(** ** Platform services the dashboard calls *)

Module Platform.
Import Js.

(** [new Date(v)] for a truthy [v], observed through [isNaN(d)],
    [d.getFullYear()] and [d.getMonth()]: [None] for an invalid date,
    otherwise the year and the month (0 to 11) in the local time zone.
    Parsing and the time zone belong to the host. *)
Class JsDate := new_Date : JsVal → option (Z * Z).

(** [a.localeCompare(b)], whose collation belongs to the host. *)
Class JsLocale := localeCompare : string → string → Z.

(** IEEE binary64 of an integer; exact below 2^53. *)
Definition Z2F (z : Z) : float :=
  if z <? 0 then PrimFloat.opp (PrimFloat.of_uint63 (Uint63.of_Z (- z)))
  else PrimFloat.of_uint63 (Uint63.of_Z z).

(** [Math.round(x)]: the integer nearest to [x], the larger one at a
    tie, that is [floor(x + 1/2)], computed exactly from the signed
    mantissa [sm] and the exponent [e] of [x = sm * 2^e]: for [e < 0]
    it is [floor((2 * sm + 2^-e) / 2^(1-e))].  [None] when [x] is NaN or
    infinite. *)
Definition Math_round (x : float) : option Z :=
  match Prim2SF x with
  | S754_zero _ => Some 0
  | S754_finite s m e =>
      let sm := if s then Z.neg m else Z.pos m in
      if 0 <=? e then Some (Z.shiftl sm e)
      else Some (Z.shiftr (2 * sm + Z.shiftl 1 (- e)) (- e + 1))
  | S754_infinity _ | S754_nan => None
  end.

(** Reference host for the concrete evaluations: dates in the form
    [YYYY-MM-DD] read in the UTC time zone, strings collated by code
    unit. *)
Definition two_digits (a b : ascii) : option Z :=
  match digit 10 a, digit 10 b with
  | Some x, Some y => Some (10 * x + y)
  | _, _ => None
  end.

Definition iso_date (v : JsVal) : option (Z * Z) :=
  match v with
  | JsStr (String y1 (String y2 (String y3 (String y4
      (String "-" (String m1 (String m2 (String "-" (String d1 (String d2 "")))))))))) =>
      match two_digits y1 y2, two_digits y3 y4, two_digits m1 m2, two_digits d1 d2 with
      | Some yh, Some yl, Some m, Some d =>
          if (1 <=? m) && (m <=? 12) && (1 <=? d) && (d <=? 31)
          then Some (100 * yh + yl, m - 1) else None
      | _, _, _, _ => None
      end
  | _ => None
  end.

End Platform.

(** ** Dashboard.jsx *)

Module Dashboard.
Import Js JsData Platform.

Record Agg := mkAgg {
  agg_name : JsVal;
  agg_total : Z;
  people : list JsVal;
  projects : list JsVal;
}.

Record Bucket := mkBucket {
  name : JsVal;
  total : Z;
  peopleCount : nat;
  projectsCount : nat;
}.

(** One iteration of the loop of [groupTotals]; [agg] is mutated in
    place and stored back under its key. *)
Definition groupTotals_step (key : string) (map : JsMap Agg) (r : option obj) : JsMap Agg :=
  let groupKey := or_else (get_opt r key) (JsStr "—") in
  let total := number_or_0 (get_opt r "Total") in
  let agg := default (mkAgg groupKey 0 [] []) (map_get groupKey map) in
  let agg := mkAgg (agg_name agg) (agg_total agg + total)
               (if truthy (get_opt r "Person")
                then set_add (get_opt r "Person") (people agg) else people agg)
               (if truthy (get_opt r "Project")
                then set_add (get_opt r "Project") (projects agg) else projects agg) in
  map_set groupKey agg map.

(** [rows || []] reads a missing row list as the empty one; an element
    of [rows] may itself be [null] ([r?.]). *)
Definition groupTotals (rows : list (option obj)) (key : string) : list Bucket :=
  map (λ x, mkBucket (agg_name x.2) (agg_total x.2)
                     (length (people x.2)) (length (projects x.2)))
      (fold_left (groupTotals_step key) rows []).

(** [filteredDb]: the rows of the selected person and project, an
    empty selection selecting all. *)
Definition filteredDb (db : list obj) (personFilter projectFilter : JsVal) : list obj :=
  let rows := db in
  let rows := if truthy personFilter
              then List.filter (λ r, strict_eq (get r "Person") personFilter) rows
              else rows in
  if truthy projectFilter
  then List.filter (λ r, strict_eq (get r "Project") projectFilter) rows
  else rows.

(** [groupTotals(filteredDb, key).sort((a, b) => b.total - a.total)] *)
Definition byPerson (filteredDb : list obj) : list Bucket :=
  sort (λ a b, total b - total a) (groupTotals (map Some filteredDb) "Person").
Definition byProject (filteredDb : list obj) : list Bucket :=
  sort (λ a b, total b - total a) (groupTotals (map Some filteredDb) "Project").
Definition byBU (filteredDb : list obj) : list Bucket :=
  sort (λ a b, total b - total a) (groupTotals (map Some filteredDb) "Business_Unit").

Section WithHost.
Context `{JsDate, JsLocale}.

(** [row?.Week_Start ? new Date(row.Week_Start) : null], with the
    invalid date merged into [None]. *)
Definition week_start_date (row : obj) : option (Z * Z) :=
  if truthy (get row "Week_Start") then new_Date (get row "Week_Start") else None.

Definition toWeekKey (row : obj) : string :=
  match week_start_date row with
  | None =>
      padStart0 4 (ToString (or_else (get row "Year") (JsStr ""))) +:+ "-W"
      +:+ padStart0 2 (ToString (or_else (get row "ISO_Week") (JsStr "")))
  | Some (y, _) =>
      ToString (JsInt y) +:+ "-W"
      +:+ padStart0 2 (ToString (or_else (get row "ISO_Week") (JsInt 0)))
  end.

Definition toMonthKey (row : obj) : string :=
  let d := week_start_date row in
  let y := match d with
           | Some (y, _) => JsInt y
           | None => or_else (get row "Year") (JsStr "")
           end in
  let m := match d with
           | Some (_, m) => padStart0 2 (ToString (JsInt (m + 1)))
           | None => "01"
           end in
  ToString y +:+ "-" +:+ m.

(** *** Weekly series of the selected person *)

Record WeekPoint := mkWeekPoint {
  wk : JsVal;
  wk_total : Z;
  dateKey : JsVal;
}.

Definition weeklyPerson_step (personFilter : JsVal)
    (acc : JsMap Z * JsMap JsVal) (r : obj) : JsMap Z * JsMap JsVal :=
  let '(map, weeks) := acc in
  if negb (strict_eq (get r "Person") personFilter) then acc
  else
    let wk := JsStr (toWeekKey r) in
    let dateKey := or_else (get r "Week_Start") wk in
    let weeks := map_set wk dateKey weeks in
    (map_set wk (default 0 (map_get wk map) + number_or_0 (get r "Total")) map, weeks).

(** [weeklyPersonSeries]; [None] is [null], returned when no person is
    selected. *)
Definition weeklyPersonSeries (db : list obj) (personFilter : JsVal)
    : option (list WeekPoint) :=
  if negb (truthy personFilter) then None
  else
    let '(map, weeks) := fold_left (weeklyPerson_step personFilter) db ([], []) in
    let entries :=
      List.map (λ kv : JsVal * Z,
                  mkWeekPoint kv.1 kv.2 (default JsUndefined (map_get kv.1 weeks))) map in
    Some (sort (λ a b, localeCompare (ToString (dateKey a)) (ToString (dateKey b))) entries).

(** *** Weekly series by person for a selected project *)

Record PersonSeries := mkPersonSeries {
  ps_person : JsVal;
  series : list Z;
  ps_total : Z;
  weeksLabels : list JsVal;
}.

Definition weekly_step (projectFilter : JsVal)
    (acc : JsMap (JsMap Z) * list JsVal) (r : obj) : JsMap (JsMap Z) * list JsVal :=
  let '(byPersonMap, allWeeks) := acc in
  if negb (strict_eq (get r "Project") projectFilter) then acc
  else
    let wk := JsStr (toWeekKey r) in
    let allWeeks := set_add (or_else (get r "Week_Start") wk) allWeeks in
    let person := or_else (get r "Person") (JsStr "—") in
    let m := default [] (map_get person byPersonMap) in
    let m := map_set wk (default 0 (map_get wk m) + number_or_0 (get r "Total")) m in
    (map_set person m byPersonMap, allWeeks).

(** [k.split("-W")[1]], converted to a string as [includes] does
    with its argument. *)
Definition week_segment (k : JsVal) : string :=
  match split "-W" (ToString k) !! 1%nat with
  | Some seg => seg
  | None => "undefined"
  end.

(** The value of the series at the week label [ws]; [None] is the
    TypeError raised by [ws.includes] on a label that is not a
    string. *)
Definition series_at (m : JsMap Z) (ws : JsVal) : option Z :=
  match ws, m with
  | JsStr w, _ =>
      let val := match List.find (λ kv, includes w (week_segment kv.1)) m with
                 | Some kv => kv.2
                 | None => 0
                 end in
      Some (if (val =? 0) && map_has ws m then default 0 (map_get ws m) else val)
  | _, [] => Some (default 0 (map_get ws m))
  | _, _ :: _ => None
  end.

Definition weeklyByPersonForProject (db : list obj) (projectFilter : JsVal)
    : option (list PersonSeries) :=
  if negb (truthy projectFilter) then Some []
  else
    let '(byPersonMap, allWeeks) := fold_left (weekly_step projectFilter) db ([], []) in
    let weeksSorted :=
      sort (λ a b, localeCompare (ToString a) (ToString b)) allWeeks in
    rows ← mapM (λ pm : JsVal * JsMap Z,
              series ← mapM (series_at pm.2) weeksSorted;
              Some (mkPersonSeries pm.1 series (fold_left Z.add series 0) weeksSorted))
            byPersonMap;
    Some (sort (λ a b, ps_total b - ps_total a) rows).

(** *** Monthly proportion per project *)

Record ProjectShare := mkProjectShare {
  share_name : JsVal;
  hours : Z;
  pct : JsVal;
}.

Record MonthRow := mkMonthRow {
  month : JsVal;
  month_total : Z;
  month_projects : list ProjectShare;
}.

Definition monthly_step (acc : JsMap Z * JsMap (JsMap Z)) (r : obj)
    : JsMap Z * JsMap (JsMap Z) :=
  let '(monthTotals, monthProject) := acc in
  let mk := JsStr (toMonthKey r) in
  let pt := number_or_0 (get r "Total") in
  let monthTotals := map_set mk (default 0 (map_get mk monthTotals) + pt) monthTotals in
  let mp := default [] (map_get mk monthProject) in
  let project := or_else (get r "Project") (JsStr "—") in
  let mp := map_set project (default 0 (map_get project mp) + pt) mp in
  (monthTotals, map_set mk mp monthProject).

(** [total ? Math.round((hours / total) * 100) : 0], on doubles.  A
    product that is not finite, which needs hours beyond 2^53, is
    rendered as [JsNaN]. *)
Definition percent (hours total : Z) : JsVal :=
  if total =? 0 then JsInt 0
  else match Math_round (PrimFloat.mul (PrimFloat.div (Z2F hours) (Z2F total)) (Z2F 100)) with
       | Some p => JsInt p
       | None => JsNaN
       end.

Definition monthlyProportion (db : list obj) : list MonthRow :=
  let '(monthTotals, monthProject) := fold_left monthly_step db ([], []) in
  let months := sort (λ a b, string_cmp (ToString a) (ToString b)) (map fst monthTotals) in
  map (λ mk,
         let total := default 0 (map_get mk monthTotals) in
         let mp := default [] (map_get mk monthProject) in
         let projects :=
           sort (λ a b, hours b - hours a)
                (map (λ nh : JsVal * Z, mkProjectShare nh.1 nh.2 (percent nh.2 total)) mp) in
         mkMonthRow mk total projects)
      months.

End WithHost.

End Dashboard.

(** ** Reference host *)

Module RefHost.
Import Js JsData Platform.

#[export] Instance utc_date : JsDate := iso_date.
#[export] Instance code_unit_locale : JsLocale := string_cmp.

End RefHost.

(** ** Notions the specification uses *)

Module Spec.
Import Js JsData Platform Timesheet Dashboard.

(** The invariant of the data model: [Total] is the sum of the five
    weekday measures, each read as a number. *)
Definition total_is_sum (r : obj) : Prop :=
  get r "Total" = JsInt (entryTotal r).

(** What a committed row carries over from its staging entry. *)
Definition committed (createdAt : string) (st : State) (e row : obj) : Prop :=
  get row "Total" = JsInt (entryTotal e)
  ∧ get row "Created_At" = JsStr createdAt
  ∧ (∀ d, d ∈ DAYS → get row d = JsInt (number_or_0 (get e d)))
  ∧ get row "Person" = person st
  ∧ get row "Project" = get e "project"
  ∧ get row "Business_Unit" = get e "businessUnit".

(** The identifier of the row committed for the staging entry at
    position [idx]: year, two-digit week, person and [idx + 1]. *)
Definition row_id (st : State) (idx : nat) : string :=
  ToString (JsInt (selectedYear st)) +:+ "-" +:+ toTwo (selectedWeek st)
  +:+ "-" +:+ ToString (person st) +:+ "-" +:+ ToString (JsInt (Z.of_nat idx + 1)).

(** A value the staging area writes into a day cell: blank, or an
    integer from 0 to 24. *)
Definition hours_cell (v : JsVal) : bool :=
  match v with
  | JsStr s => bool_decide (s = "")
  | JsInt n => (0 <=? n) && (n <=? 24)
  | _ => false
  end.



(** A string of decimal digits. *)
Fixpoint decimal_digits (s : string) : bool :=
  match s with
  | EmptyString => true
  | String a r => (48 <=? code a) && (code a <=? 57) && decimal_digits r
  end.

(** The elements of a list in the order of their first appearance. *)
Fixpoint first_seen (l : list JsVal) : list JsVal :=
  match l with
  | [] => []
  | x :: l' => x :: List.filter (λ y, negb (bool_decide (y = x))) (first_seen l')
  end.

(** The bucket a row falls into. *)
Definition groupKey (key : string) (r : option obj) : JsVal :=
  or_else (get_opt r key) (JsStr "—").

Definition members (key : string) (k : JsVal) (rows : list (option obj)) : list (option obj) :=
  List.filter (λ r, bool_decide (groupKey key r = k)) rows.

Definition sum_Total (rows : list (option obj)) : Z :=
  foldr (λ r s, number_or_0 (get_opt r "Total") + s) 0 rows.

(** The number of distinct truthy values of a property among rows. *)
Definition count_distinct (prop : string) (rows : list (option obj)) : nat :=
  length (remove_dups (List.filter truthy (map (λ r, get_opt r prop) rows))).

(** The truthy values of a property among rows, in the order of first
    appearance. *)
Definition seen_values (prop : string) (rows : list (option obj)) : list JsVal :=
  first_seen (List.filter truthy (map (λ r, get_opt r prop) rows)).

(** The accumulator of the bucket [k] once [rows] have been read, and
    the bucket reported for it. *)
Definition agg_of (key : string) (rows : list (option obj)) (k : JsVal) : Agg :=
  let ms := members key k rows in
  mkAgg k (sum_Total ms) (seen_values "Person" ms) (seen_values "Project" ms).

Definition bucket_of (key : string) (rows : list (option obj)) (k : JsVal) : Bucket :=
  let ms := members key k rows in
  mkBucket k (sum_Total ms) (count_distinct "Person" ms) (count_distinct "Project" ms).

(** Rows by month and, within a month, by project. *)
Definition month_key `{JsDate} (r : obj) : JsVal := JsStr (toMonthKey r).

Definition month_rows `{JsDate} (mk : JsVal) (db : list obj) : list obj :=
  List.filter (λ r, bool_decide (month_key r = mk)) db.

Definition project_key (r : obj) : JsVal := or_else (get r "Project") (JsStr "—").

Definition project_rows (p : JsVal) (rows : list obj) : list obj :=
  List.filter (λ r, bool_decide (project_key r = p)) rows.

Definition sum_hours (rows : list obj) : Z :=
  foldr (λ r s, number_or_0 (get r "Total") + s) 0 rows.

(** The hours of each project of [rows], projects in the order of first
    appearance. *)
Definition project_hours_of (rows : list obj) : JsMap Z :=
  map (λ p, (p, sum_hours (project_rows p rows))) (first_seen (map project_key rows)).

(** The row reported for the month [mk]. *)
Definition month_row_of `{JsDate} (db : list obj) (mk : JsVal) : MonthRow :=
  let rows := month_rows mk db in
  let total := sum_hours rows in
  mkMonthRow mk total
    (sort (λ a b, hours b - hours a)
          (map (λ nh : JsVal * Z, mkProjectShare nh.1 nh.2 (percent nh.2 total))
               (project_hours_of rows))).

(** Rounding to the nearest integer, halves upwards, of the exact
    quotient [num / den] for [den > 0]. *)
Definition round_half_up (num den : Z) : Z := (2 * num + den) / (2 * den).

(** The fields the table of the staging area edits through
    [updateEntry]. *)
Definition EDITABLE : list string :=
  ["Mon"; "Tue"; "Wed"; "Thu"; "Fri"; "project"; "businessUnit"; "notes"].

(** A staging list within the weekly cap: distinct row ids,
    non-negative day cells, at most 40 hours. *)
Definition capped (es : list obj) : Prop :=
  NoDup (map (λ e, get e "id") es)
  ∧ (∀ e d, e ∈ es → d ∈ DAYS → 0 ≤ number_or_0 (get e d))
  ∧ totalWeekHours es ≤ 40.

(** One action on the staging area other than [duplicateRow]. *)
Inductive staging_step (st : State) : State → Prop :=
| step_updateEntry (id : JsVal) (field value : string) :
    field ∈ EDITABLE → staging_step st (updateEntry id field value st)
| step_addRow (uid project businessUnit : JsVal) :
    uid ∉ map (λ e, get e "id") (entries st) →
    staging_step st (addRow (blankEntry uid project businessUnit) st)
| step_removeRow (ok : bool) (id : JsVal) :
    staging_step st (removeRow ok id st)
| step_clearEntries (uid project businessUnit : JsVal) :
    staging_step st (clearEntries (blankEntry uid project businessUnit) st).

(** The sum of a weight over the values of a [Map]. *)
Definition weight {V} (w : V → Z) (m : JsMap V) : Z :=
  foldr (λ kv s, w kv.2 + s) 0 m.

Definition sum_totals (bs : list Bucket) : Z := foldr (λ b s, total b + s) 0 bs.

(** The rows of a person and the hours of a weekly series. *)
Definition person_rows (personFilter : JsVal) (db : list obj) : list obj :=
  List.filter (λ r, strict_eq (get r "Person") personFilter) db.

Definition sum_points (ps : list WeekPoint) : Z := foldr (λ p s, wk_total p + s) 0 ps.

End Spec.

(** ** IEEE binary64, for the percentage *)

Module Binary64.

(** Where a remainder [rest] lies in a step of width [W]. *)
Definition locate (rest W : Z) : location :=
  if rest =? 0 then loc_Exact else loc_Inexact (2 * rest ?= W).

(** The shift record [mrs] holds the quotient of [N] by [2^k * D] and
    the position of the remainder. *)
Definition shifted (N D k : Z) (mrs : shr_record) : Prop :=
  0 <= shr_m mrs /\
  exists rest, N = shr_m mrs * (2 ^ k * D) + rest /\ 0 <= rest < 2 ^ k * D
               /\ loc_of_shr_record mrs = locate rest (2 ^ k * D).

Definition bpow (e : Z) : R := powerRZ 2 e.

(** The real number a finite positive double stands for. *)
Definition SFval (m : positive) (e : Z) : R := (IZR (Z.pos m) * bpow e)%R.

End Binary64.

(** ** Sample data *)

Module Sample.
Import Js JsData Timesheet.

(** A staging entry as [blankEntry] and [updateEntry] leave it. *)
Definition entry (id project : string) (mon tue wed thu fri : JsVal) : obj :=
  list_to_map
    [ ("id", JsStr id); ("project", JsStr project); ("businessUnit", JsStr "Branding");
      ("Mon", mon); ("Tue", tue); ("Wed", wed); ("Thu", thu); ("Fri", fri);
      ("notes", JsStr "") ].

Definition state (person : string) (entries : list obj) : State :=
  mkState (JsStr person) 2025 32 entries [] "" JsNull None.

(** A database row as [appendToDatabase] writes it for the staging
    entry number [idx] of a person. *)
Definition db_row (person project weekStart : string) (isoWeek idx total : Z) : obj :=
  list_to_map
    [ ("ID", JsStr ("2025-" +:+ toTwo isoWeek +:+ "-" +:+ person +:+ "-"
                    +:+ ToString (JsInt idx)));
      ("Year", JsInt 2025); ("ISO_Week", JsInt isoWeek); ("Week_Start", JsStr weekStart);
      ("Person", JsStr person); ("Project", JsStr project);
      ("Business_Unit", JsStr "Branding");
      ("Mon", JsInt total); ("Tue", JsInt 0); ("Wed", JsInt 0); ("Thu", JsInt 0);
      ("Fri", JsInt 0); ("Sat", JsInt 0); ("Sun", JsInt 0);
      ("Total", JsInt total); ("Notes", JsStr "");
      ("Created_At", JsStr "2025-08-08T18:00:00.000Z") ].


End Sample.

(** * Properties *)

(** ** Sums over the weekdays *)

Section Sums.
Import Js JsData Timesheet.

Lemma fold_left_add_acc {A} (f : A → Z) (l : list A) (a : Z) :
  fold_left (λ s x, s + f x) l a = a + fold_left (λ s x, s + f x) l 0.
Proof.
  revert a. induction l as [|x l IH]; intros a; simpl; [lia|].
  rewrite (IH (a + f x)), (IH (0 + f x)). lia.
Qed.

Lemma entryTotal_days (e : obj) :
  entryTotal e
  = number_or_0 (get e "Mon") + number_or_0 (get e "Tue") + number_or_0 (get e "Wed")
    + number_or_0 (get e "Thu") + number_or_0 (get e "Fri").
Proof. unfold entryTotal, DAYS. cbn [fold_left]. lia. Qed.

Lemma totalWeekHours_cons (e : obj) (es : list obj) :
  totalWeekHours (e :: es) = entryTotal e + totalWeekHours es.
Proof.
  unfold totalWeekHours. simpl.
  rewrite (fold_left_add_acc entryTotal es (0 + entryTotal e)). lia.
Qed.

Lemma totalWeekHours_app (es1 es2 : list obj) :
  totalWeekHours (es1 ++ es2)%list = totalWeekHours es1 + totalWeekHours es2.
Proof.
  induction es1 as [|e es1 IH]; simpl; [reflexivity|].
  rewrite !totalWeekHours_cons, IH. lia.
Qed.

Lemma totalWeekHours_nil : totalWeekHours [] = 0.
Proof. reflexivity. Qed.

End Sums.

(** ** The weekly cap *)

Section Cap.
Import Timesheet.

(** C1. On integers, [allowedAfterCap] returns
    [min(allowance, max(0, candidate))] with
    [allowance = max(0, 40 - used)] and [used] the sum of its first two
    arguments; [allowedAfterCap 30 5 10 = 5] and
    [allowedAfterCap 0 0 (-2) = 0]. *)
Theorem allowedAfterCap_spec :
  (∀ otherRowsTotal thisRowOtherDaysTotal candidateValue : Z,
     let used := otherRowsTotal + thisRowOtherDaysTotal in
     let allowance := Z.max 0 (40 - used) in
     allowedAfterCap otherRowsTotal thisRowOtherDaysTotal candidateValue
     = Z.min allowance (Z.max 0 candidateValue))
  ∧ allowedAfterCap 30 5 10 = 5
  ∧ allowedAfterCap 0 0 (-2) = 0.
Proof. split; [intros o t c; reflexivity | split; vm_compute; reflexivity]. Qed.

(** C2, as stated, fails: with nothing used yet a candidate of 30 is
    returned unchanged, above the bound [min(24, 40 - 0 - 0) = 24]. *)
Lemma allowedAfterCap_exceeds_24 :
  0 ≤ 0 ∧ 0 ≤ Z.min 24 (40 - 0 - 0)
  ∧ ¬ (0 ≤ allowedAfterCap 0 0 30 ≤ Z.min 24 (40 - 0 - 0))
  ∧ allowedAfterCap 0 0 30 = 30.
Proof. vm_compute. intuition congruence. Qed.

(** C2, amended.  For non-negative totals the result lies in
    [[0, 40 - otherRowsTotal - thisRowOtherDaysTotal]] when that bound is
    non-negative and is 0 otherwise; it never exceeds a non-negative
    candidate, so it lies in
    [[0, min(24, 40 - otherRowsTotal - thisRowOtherDaysTotal)]] whenever
    the candidate is at most 24, which is how [updateEntry] clamps the
    value before applying the cap. *)
Theorem allowedAfterCap_range (otherRowsTotal thisRowOtherDaysTotal candidateValue : Z) :
  0 ≤ otherRowsTotal → 0 ≤ thisRowOtherDaysTotal →
  let r := allowedAfterCap otherRowsTotal thisRowOtherDaysTotal candidateValue in
  let bound := 40 - otherRowsTotal - thisRowOtherDaysTotal in
  (0 ≤ bound → 0 ≤ r ≤ bound)
  ∧ (bound < 0 → r = 0)
  ∧ (0 ≤ candidateValue → r ≤ candidateValue)
  ∧ (0 ≤ bound → candidateValue ≤ 24 → 0 ≤ r ≤ Z.min 24 bound).
Proof. intros Ho Ht. unfold allowedAfterCap. cbv zeta. lia. Qed.

Lemma allowedAfterCap_range_witness :
  let r := allowedAfterCap 30 5 10 in
  (0 ≤ 40 - 30 - 5 → 0 ≤ r ≤ 40 - 30 - 5)
  ∧ (40 - 30 - 5 < 0 → r = 0)
  ∧ (0 ≤ 10 → r ≤ 10)
  ∧ (0 ≤ 40 - 30 - 5 → 10 ≤ 24 → 0 ≤ r ≤ Z.min 24 (40 - 30 - 5)).
Proof. apply (allowedAfterCap_range 30 5 10); lia. Defined.

End Cap.

(** ** [sumWeek] *)

Section SumWeek.
Import Js JsData Timesheet.



(** *** Decimal numerals *)








Lemma decimal_digits_rev_app (s1 s2 : string) :
  Spec.decimal_digits (String.rev_app s1 s2)
  = Spec.decimal_digits s1 && Spec.decimal_digits s2.
Proof.
  revert s2. induction s1 as [|a s1 IH]; intros s2; [reflexivity|].
  cbn [String.rev_app]. rewrite IH. cbn [Spec.decimal_digits].
  destruct ((48 <=? code a) && (code a <=? 57)), (Spec.decimal_digits s1),
    (Spec.decimal_digits s2); reflexivity.
Qed.












End SumWeek.

(** ** The staging area *)

Section Staging.
Import Js JsData Timesheet.

Lemma get_insert_eq (o : obj) (k : string) (v : JsVal) : get (<[k := v]> o) k = v.
Proof. unfold get. rewrite lookup_insert_eq. reflexivity. Qed.

Lemma get_insert_ne (o : obj) (k k' : string) (v : JsVal) :
  k ≠ k' → get (<[k := v]> o) k' = get o k'.
Proof. intros Hne. unfold get. rewrite lookup_insert_ne by assumption. reflexivity. Qed.

Lemma entryTotal_insert_other (o : obj) (k : string) (v : JsVal) :
  k ∉ DAYS → entryTotal (<[k := v]> o) = entryTotal o.
Proof.
  intros Hk. rewrite !entryTotal_days.
  rewrite !get_insert_ne; [reflexivity | | | | |];
    intros ->; apply Hk; rewrite list_elem_of_In; simpl; tauto.
Qed.

(** C9. [duplicateRow] appends a copy of the first row with the given
    id that differs from it in [id] only; no cap is applied, so the
    weekly total grows by the total of the copied row, and a state with
    24 hours becomes one with 48. *)
Theorem duplicateRow_copies_uncapped :
  (∀ (uid id : JsVal) (st : State) (found : obj),
     List.find (λ e, strict_eq (get e "id") id) (entries st) = Some found →
     let copy := <["id" := uid]> found in
     entries (duplicateRow uid id st) = (entries st ++ [copy])%list
     ∧ get copy "id" = uid
     ∧ (∀ k, k ≠ "id" → copy !! k = found !! k)
     ∧ totalWeekHours (entries (duplicateRow uid id st))
       = totalWeekHours (entries st) + entryTotal found)
  ∧ (∀ (uid id : JsVal) (st : State),
       List.find (λ e, strict_eq (get e "id") id) (entries st) = None →
       entries (duplicateRow uid id st) = entries st)
  ∧ (∃ (uid id : JsVal) (st : State),
       20 < totalWeekHours (entries st) ≤ 40
       ∧ 40 < totalWeekHours (entries (duplicateRow uid id st))).
Proof.
  split; [|split].
  - intros uid id st found Hfind copy.
    assert (Hentries : entries (duplicateRow uid id st) = (entries st ++ [copy])%list).
    { unfold duplicateRow, setEntries. simpl. rewrite Hfind. reflexivity. }
    split; [exact Hentries|]. split; [apply get_insert_eq|]. split.
    + intros k Hk. unfold copy. rewrite lookup_insert_ne by congruence. reflexivity.
    + rewrite Hentries, totalWeekHours_app, totalWeekHours_cons, totalWeekHours_nil.
      unfold copy. rewrite entryTotal_insert_other; [lia|].
      rewrite list_elem_of_In. simpl. intuition discriminate.
  - intros uid id st Hfind. unfold duplicateRow, setEntries. simpl.
    rewrite Hfind. reflexivity.
  - exists (JsStr "k3v9x2qa"), (JsStr "a"),
      (Sample.state "Alice Silva"
         [Sample.entry "a" "Google – Brand Film" (JsInt 8) (JsInt 8) (JsInt 8) (JsStr "") (JsStr "")]).
    vm_compute. repeat split; congruence.
Qed.

(** *** [updateEntry] keeps the weekly total within 40 hours *)

Lemma entries_updateEntry (id : JsVal) (field value : string) (st : State) :
  entries (updateEntry id field value st)
  = map (λ e, (updateEntry_row (entries st) id field value e).1) (entries st).
Proof.
  unfold updateEntry. rewrite <- list_fmap_compose.
  destruct (existsb _ _); reflexivity.
Qed.

(** Evaluate [DAYS.filter((d) => d !== field)] for a known [field]. *)
Ltac eval_other_days :=
  repeat match goal with
  | |- context [List.filter ?f DAYS] =>
      let r := eval vm_compute in (List.filter f DAYS) in
      change (List.filter f DAYS) with r
  end.

(** The other four days of a row, and the day under edit. *)
Lemma entryTotal_split (field : string) (e : obj) :
  field ∈ DAYS →
  entryTotal e
  = fold_left (λ s d, s + number_or_0 (get e d))
              (List.filter (λ d, negb (bool_decide (d = field))) DAYS) 0
    + number_or_0 (get e field).
Proof.
  intros Hf. rewrite entryTotal_days. unfold DAYS in Hf.
  repeat (apply elem_of_cons in Hf as [-> | Hf];
          [eval_other_days; cbn [fold_left]; lia|]).
  inversion Hf.
Qed.

Lemma entryTotal_insert_day (field : string) (v : JsVal) (e : obj) :
  field ∈ DAYS →
  entryTotal (<[field := v]> e)
  = fold_left (λ s d, s + number_or_0 (get e d))
              (List.filter (λ d, negb (bool_decide (d = field))) DAYS) 0
    + number_or_0 v.
Proof.
  intros Hf. rewrite (entryTotal_split field) by assumption.
  rewrite get_insert_eq. f_equal.
  unfold DAYS in Hf.
  repeat (apply elem_of_cons in Hf as [-> | Hf];
          [eval_other_days; cbn [fold_left];
           rewrite !get_insert_ne by discriminate; reflexivity|]).
  inversion Hf.
Qed.

(** With distinct ids at most one row answers to [id]. *)
Lemma unique_row_split (id : JsVal) (prev : list obj) :
  NoDup (map (λ e, get e "id") prev) →
  Forall (λ e, strict_eq (get e "id") id = false) prev
  ∨ ∃ l1 e0 l2,
      prev = (l1 ++ e0 :: l2)%list
      ∧ strict_eq (get e0 "id") id = true
      ∧ Forall (λ e, strict_eq (get e "id") id = false) l1
      ∧ Forall (λ e, strict_eq (get e "id") id = false) l2.
Proof.
  induction prev as [|e l IH]; intros Hnd; [left; constructor|].
  simpl in Hnd. apply NoDup_cons in Hnd as [Hnotin Hnd].
  destruct (strict_eq (get e "id") id) eqn:He.
  - right. exists [], e, l. repeat split; [assumption | constructor |].
    apply Forall_forall. intros e' Hin.
    destruct (strict_eq (get e' "id") id) eqn:He'; [|reflexivity].
    exfalso. apply Hnotin.
    assert (get e "id" = get e' "id") as ->.
    { unfold strict_eq in He, He'.
      destruct (get e "id"), (get e' "id");
        try discriminate; apply bool_decide_eq_true in He, He'; congruence. }
    apply list_elem_of_fmap. exists e'. split; [reflexivity | assumption].
  - destruct (IH Hnd) as [Hall | (l1 & e0 & l2 & -> & H0 & H1 & H2)].
    + left. constructor; assumption.
    + right. exists (e :: l1), e0, l2. repeat split; try assumption.
      constructor; assumption.
Qed.

Lemma filter_others_id (id : JsVal) (l : list obj) :
  Forall (λ e, strict_eq (get e "id") id = false) l →
  List.filter (λ r, negb (strict_eq (get r "id") id)) l = l.
Proof.
  induction 1 as [|e l He _ IH]; simpl; [reflexivity|].
  rewrite He. simpl. f_equal. exact IH.
Qed.

Lemma others_of_split (id : JsVal) (prev l1 l2 : list obj) (e0 : obj) :
  prev = (l1 ++ e0 :: l2)%list →
  strict_eq (get e0 "id") id = true →
  Forall (λ e, strict_eq (get e "id") id = false) l1 →
  Forall (λ e, strict_eq (get e "id") id = false) l2 →
  List.filter (λ r, negb (strict_eq (get r "id") id)) prev = (l1 ++ l2)%list.
Proof.
  intros -> H0 H1 H2. rewrite List.filter_app. cbn [List.filter].
  rewrite H0. cbn [negb]. rewrite !filter_others_id by assumption. reflexivity.
Qed.

Lemma updateEntry_row_other (prev : list obj) (id : JsVal) (field value : string) (e : obj) :
  strict_eq (get e "id") id = false → updateEntry_row prev id field value e = (e, false).
Proof. intros He. unfold updateEntry_row. rewrite He. reflexivity. Qed.

Lemma map_updateEntry_row_others (prev : list obj) (id : JsVal) (field value : string)
    (l : list obj) :
  Forall (λ e, strict_eq (get e "id") id = false) l →
  map (λ e, (updateEntry_row prev id field value e).1) l = l.
Proof.
  induction 1 as [|e l He _ IH]; simpl; [reflexivity|].
  rewrite updateEntry_row_other by assumption. simpl. f_equal. exact IH.
Qed.

(** The edited row: its new cell is a staging value, and its new total
    fits what the other rows leave of the 40 hours. *)
Lemma updateEntry_row_edit (prev : list obj) (id : JsVal) (field value : string) (e : obj) :
  field ∈ DAYS →
  strict_eq (get e "id") id = true →
  0 ≤ number_or_0 (get e field) →
  let others := List.filter (λ r, negb (strict_eq (get r "id") id)) prev in
  totalWeekHours others + entryTotal e ≤ 40 →
  let e' := (updateEntry_row prev id field value e).1 in
  totalWeekHours others + entryTotal e' ≤ 40
  ∧ Spec.hours_cell (get e' field) = true
  ∧ 0 ≤ number_or_0 (get e' field) ≤ 24
  ∧ (∀ k, k ≠ field → e' !! k = e !! k).
Proof.
  intros Hf He Hcell others Hsum e'. subst e'.
  unfold updateEntry_row. rewrite He. cbn [negb].
  rewrite (bool_decide_eq_true_2 _ Hf).
  change (fold_left _ (List.filter (λ r, negb (strict_eq (get r "id") id)) prev) 0)
    with (totalWeekHours others).
  rewrite (entryTotal_split field e Hf) in Hsum.
  set (thisOtherDays := fold_left _ (List.filter _ DAYS) 0) in *.
  destruct (bool_decide (value = "")); cbn [fst].
  { rewrite entryTotal_insert_day, get_insert_eq by assumption.
    fold thisOtherDays.
    change (number_or_0 (JsStr "")) with 0.
    split; [lia|]. split; [reflexivity|]. split; [lia|].
    intros k Hk. apply lookup_insert_ne. congruence. }
  set (numeric := Z.max 0 (Z.min 24 (default 0 (parseInt value)))).
  assert (0 ≤ numeric ≤ 24) as Hnum by (unfold numeric; lia).
  destruct (40 <? totalWeekHours others + thisOtherDays + numeric) eqn:Hcap; cbn [fst];
    rewrite entryTotal_insert_day, get_insert_eq by assumption; fold thisOtherDays;
    [apply Z.ltb_lt in Hcap | apply Z.ltb_ge in Hcap];
    match goal with
    | |- context [number_or_0 (JsInt ?n)] => change (number_or_0 (JsInt n)) with n
    end;
    (split; [lia|]);
    (split; [cbn [Spec.hours_cell]; apply andb_true_iff; split; lia|]);
    (split; [lia|]); intros k Hk; apply lookup_insert_ne; congruence.
Qed.

(** Whatever the row, [updateEntry] touches no property but [field],
    and on a day cell it writes a blank or a non-negative integer. *)
Lemma updateEntry_row_frame (prev : list obj) (id : JsVal) (field value k : string) (e : obj) :
  k ≠ field → (updateEntry_row prev id field value e).1 !! k = e !! k.
Proof.
  intros Hk. unfold updateEntry_row.
  repeat match goal with
         | |- context [if ?b then _ else _] => destruct b
         end; cbn [fst]; try reflexivity; apply lookup_insert_ne; congruence.
Qed.

Lemma updateEntry_row_nonneg (prev : list obj) (id : JsVal) (field value : string) (e : obj) :
  field ∈ DAYS →
  0 ≤ number_or_0 (get e field) →
  0 ≤ number_or_0 (get (updateEntry_row prev id field value e).1 field).
Proof.
  intros Hf He. unfold updateEntry_row.
  rewrite (bool_decide_eq_true_2 _ Hf).
  repeat match goal with
         | |- context [if ?b then _ else _] => destruct b
         end; cbn [fst]; try exact He; rewrite get_insert_eq.
  - change (number_or_0 (JsStr "")) with 0. lia.
  - match goal with
    | |- context [number_or_0 (JsInt ?n)] => change (number_or_0 (JsInt n)) with n
    end. lia.
  - match goal with
    | |- context [number_or_0 (JsInt ?n)] => change (number_or_0 (JsInt n)) with n
    end. lia.
Qed.

(** The sum after an edit of a day cell, the step of the cap. *)
Lemma updateEntry_total_le_40 (id : JsVal) (field value : string) (st : State) :
  field ∈ DAYS →
  NoDup (map (λ e, get e "id") (entries st)) →
  (∀ e d, e ∈ entries st → d ∈ DAYS → 0 ≤ number_or_0 (get e d)) →
  totalWeekHours (entries st) ≤ 40 →
  totalWeekHours (entries (updateEntry id field value st)) ≤ 40.
Proof.
  intros Hf Hnd Hcells Hsum. rewrite entries_updateEntry.
  destruct (unique_row_split id (entries st) Hnd)
    as [Hall | (l1 & e0 & l2 & Hprev & H0 & H1 & H2)].
  - rewrite map_updateEntry_row_others by assumption. exact Hsum.
  - pose proof (updateEntry_row_edit (entries st) id field value e0 Hf H0) as Hedit.
    cbv zeta in Hedit.
    rewrite (others_of_split id _ _ _ _ Hprev H0 H1 H2) in Hedit.
    assert (Hin0 : e0 ∈ entries st).
    { rewrite Hprev. apply elem_of_app. right. left. }
    rewrite totalWeekHours_app in Hedit.
    destruct Hedit as [Hle _].
    { apply Hcells; assumption. }
    { rewrite Hprev, !totalWeekHours_app, totalWeekHours_cons in Hsum. lia. }
    set (f := λ e, (updateEntry_row (entries st) id field value e).1) in *.
    rewrite Hprev, map_app. cbn [map]. subst f.
    rewrite !map_updateEntry_row_others by assumption.
    rewrite !totalWeekHours_app, totalWeekHours_cons. lia.
Qed.

(** C3, as stated, fails on a staging list that has a negative cell or
    two rows with one id.  A row with Mon -10, Tue 24 and Wed 24 sums
    to 38; the edit of Mon with ["0"] finds 48 hours on the other days,
    allows 0, and leaves a week of 48.  Two rows with the id ["a"] and
    20 hours each on Mon sum to 40; the edit of Wed of ["a"] with
    ["20"] counts neither row among the others, writes 20 into both,
    and leaves a week of 80. *)
Lemma updateEntry_exceeds_cap :
  let st1 := Sample.state "Alice Silva"
               [ Sample.entry "a" "Google – Brand Film"
                   (JsInt (-10)) (JsInt 24) (JsInt 24) (JsStr "") (JsStr "") ] in
  let st2 := Sample.state "Alice Silva"
               [ Sample.entry "a" "Google – Brand Film"
                   (JsInt 20) (JsStr "") (JsStr "") (JsStr "") (JsStr "");
                 Sample.entry "a" "Stone – Investor Day"
                   (JsInt 20) (JsStr "") (JsStr "") (JsStr "") (JsStr "") ] in
  (totalWeekHours (entries st1) = 38
   ∧ totalWeekHours (entries (updateEntry (JsStr "a") "Mon" "0" st1)) = 48
   ∧ ¬ totalWeekHours (entries (updateEntry (JsStr "a") "Mon" "0" st1)) ≤ 40)
  ∧ (totalWeekHours (entries st2) = 40
     ∧ totalWeekHours (entries (updateEntry (JsStr "a") "Wed" "20" st2)) = 80
     ∧ ¬ totalWeekHours (entries (updateEntry (JsStr "a") "Wed" "20" st2)) ≤ 40).
Proof.
  split; (split; [vm_compute; reflexivity|]);
    (split; [vm_compute; reflexivity|]); vm_compute; intros H; apply H; reflexivity.
Qed.

(** C3, amended.  In a staging state with distinct row ids and
    non-negative cells whose hours sum to at most 40, [updateEntry] on
    a day cell, with any input text, leaves the sum at most 40, and the
    edited cell holds a blank or an integer from 0 to 24.  The rows
    keep their ids and their cells stay non-negative, so the next edit
    starts from such a state again. *)
Theorem updateEntry_keeps_cap (id : JsVal) (field value : string) (st : State) :
  field ∈ DAYS →
  NoDup (map (λ e, get e "id") (entries st)) →
  (∀ e d, e ∈ entries st → d ∈ DAYS → 0 ≤ number_or_0 (get e d)) →
  totalWeekHours (entries st) ≤ 40 →
  let st' := updateEntry id field value st in
  totalWeekHours (entries st') ≤ 40
  ∧ (∀ e', e' ∈ entries st' → strict_eq (get e' "id") id = true →
       Spec.hours_cell (get e' field) = true ∧ 0 ≤ number_or_0 (get e' field) ≤ 24)
  ∧ map (λ e, get e "id") (entries st') = map (λ e, get e "id") (entries st)
  ∧ (∀ e d, e ∈ entries st' → d ∈ DAYS → 0 ≤ number_or_0 (get e d)).
Proof.
  intros Hf Hnd Hcells Hsum st'. subst st'.
  rewrite entries_updateEntry.
  assert (Hid : "id" ≠ field).
  { intros <-. rewrite list_elem_of_In in Hf. simpl in Hf. intuition discriminate. }
  split; [|split; [|split]].
  - rewrite <- entries_updateEntry. apply updateEntry_total_le_40; assumption.
  - intros e' Hin Hid'.
    apply list_elem_of_fmap in Hin as (e & -> & Hin).
    destruct (strict_eq (get e "id") id) eqn:He.
    + destruct (unique_row_split id (entries st) Hnd)
        as [Hall | (l1 & e0 & l2 & Hprev & H0 & H1 & H2)].
      { rewrite Forall_forall in Hall. rewrite (Hall e Hin) in He. discriminate. }
      assert (e = e0) as ->.
      { rewrite Hprev in Hin. apply elem_of_app in Hin as [Hin | Hin].
        - rewrite Forall_forall in H1. rewrite (H1 e Hin) in He. discriminate.
        - apply elem_of_cons in Hin as [-> | Hin]; [reflexivity|].
          rewrite Forall_forall in H2. rewrite (H2 e Hin) in He. discriminate. }
      pose proof (updateEntry_row_edit (entries st) id field value e0 Hf H0) as Hedit.
      cbv zeta in Hedit.
      rewrite (others_of_split id _ _ _ _ Hprev H0 H1 H2) in Hedit.
      rewrite totalWeekHours_app in Hedit.
      destruct Hedit as (_ & Hc & Hr & _).
      { apply Hcells; assumption. }
      { rewrite Hprev, !totalWeekHours_app, totalWeekHours_cons in Hsum. lia. }
      split; assumption.
    + rewrite updateEntry_row_other in Hid' by assumption. simpl in Hid'.
      rewrite He in Hid'. discriminate.
  - rewrite <- list_fmap_compose. apply map_ext. intros e. unfold compose, get.
    rewrite updateEntry_row_frame by assumption. reflexivity.
  - intros e' d Hin Hd.
    apply list_elem_of_fmap in Hin as (e & -> & Hin).
    destruct (decide (d = field)) as [->|Hne].
    + apply updateEntry_row_nonneg; [assumption|]. apply Hcells; assumption.
    + unfold get. rewrite updateEntry_row_frame by assumption. apply Hcells; assumption.
Qed.

Lemma updateEntry_keeps_cap_witness :
  let st := Sample.state "Alice Silva"
              [ Sample.entry "a" "Google – Brand Film"
                  (JsInt 8) (JsInt 8) (JsInt 8) (JsInt 8) (JsStr "");
                Sample.entry "b" "Stone – Investor Day"
                  (JsInt 2) (JsStr "") (JsStr "") (JsStr "") (JsStr "") ] in
  let st' := updateEntry (JsStr "b") "Fri" "30" st in
  totalWeekHours (entries st') ≤ 40
  ∧ (∀ e', e' ∈ entries st' → strict_eq (get e' "id") (JsStr "b") = true →
       Spec.hours_cell (get e' "Fri") = true ∧ 0 ≤ number_or_0 (get e' "Fri") ≤ 24)
  ∧ map (λ e, get e "id") (entries st') = map (λ e, get e "id") (entries st)
  ∧ (∀ e d, e ∈ entries st' → d ∈ DAYS → 0 ≤ number_or_0 (get e d)).
Proof.
  apply (updateEntry_keeps_cap (JsStr "b") "Fri" "30").
  - rewrite list_elem_of_In. simpl. tauto.
  - apply (bool_decide_unpack _). vm_compute. exact I.
  - intros e d He Hd. unfold DAYS in Hd. cbn [Sample.state entries] in He.
    repeat (apply elem_of_cons in He as [-> | He]);
      [| |inversion He];
      (repeat (apply elem_of_cons in Hd as [-> | Hd]); [| | | | |inversion Hd]);
      vm_compute; discriminate.
  - vm_compute. discriminate.
Defined.

End Staging.

(** ** The durable collection *)

Section Durable.
Import Js JsData Timesheet.

Lemma db_appendToDatabase (createdAt weekStartStr : string) (st : State) :
  truthy (person st) = true →
  db (appendToDatabase createdAt weekStartStr st)
  = (db st ++ mjoin (imap (commitRow createdAt weekStartStr st) (entries st)))%list.
Proof. intros Hp. unfold appendToDatabase. rewrite Hp. reflexivity. Qed.

Lemma commitRow_cases (createdAt weekStartStr : string) (st : State) (idx : nat) (e : obj) :
  ((0 <? entryTotal e) = true
   ∧ ∃ row, commitRow createdAt weekStartStr st idx e = [row] ∧ Spec.committed createdAt st e row)
  ∨ ((0 <? entryTotal e) = false ∧ commitRow createdAt weekStartStr st idx e = []).
Proof.
  unfold commitRow. rewrite <- entryTotal_days.
  destruct (0 <? entryTotal e) eqn:Hpos; [left | right; split; reflexivity].
  split; [reflexivity|]. eexists. split; [reflexivity|].
  unfold Spec.committed. rewrite !entryTotal_days.
  split; [reflexivity|]. split; [reflexivity|]. split; [|repeat split].
  intros d Hd. unfold DAYS in Hd.
  repeat (apply elem_of_cons in Hd as [-> | Hd]; [reflexivity|]).
  inversion Hd.
Qed.

Lemma commit_rows_filter (createdAt : string) (st : State)
    (f : nat → obj → list obj) (l : list obj) :
  (∀ idx e,
     ((0 <? entryTotal e) = true ∧ ∃ row, f idx e = [row] ∧ Spec.committed createdAt st e row)
     ∨ ((0 <? entryTotal e) = false ∧ f idx e = [])) →
  Forall2 (Spec.committed createdAt st)
          (List.filter (λ e, 0 <? entryTotal e) l) (mjoin (imap f l)).
Proof.
  revert f. induction l as [|e l IH]; intros f Hf; [constructor|].
  cbn [imap mjoin list_join List.filter].
  destruct (Hf 0%nat e) as [(-> & row & -> & Hrow) | (-> & ->)].
  - simpl. constructor; [exact Hrow|]. apply IH. intros idx e'. apply (Hf (S idx)).
  - simpl. apply IH. intros idx e'. apply (Hf (S idx)).
Qed.

(** The identifier in a committed row. *)
Lemma commitRow_id (createdAt weekStartStr : string) (st : State) (idx : nat)
    (e row : obj) :
  commitRow createdAt weekStartStr st idx e = [row] →
  get row "ID" = JsStr (Spec.row_id st idx).
Proof.
  unfold commitRow. destruct (0 <? _); [|discriminate].
  intros [= <-]. reflexivity.
Qed.

(** The rows of a commit, against the entries with a positive sum;
    [g] gives the position of an entry in the staging list. *)
Lemma commit_rows_indexed (createdAt weekStartStr : string) (st : State)
    (g : nat → nat) (l : list obj) :
  Forall2 (λ (ie : nat * obj) row,
             0 < entryTotal ie.2
             ∧ get row "ID" = JsStr (Spec.row_id st ie.1)
             ∧ Spec.committed createdAt st ie.2 row)
          (List.filter (λ ie, 0 <? entryTotal ie.2) (imap (λ i e, (g i, e)) l))
          (mjoin (imap (λ i e, commitRow createdAt weekStartStr st (g i) e) l)).
Proof.
  revert g. induction l as [|e l IH]; intros g; [constructor|].
  cbn [imap mjoin list_join List.filter].
  destruct (commitRow_cases createdAt weekStartStr st (g 0%nat) e)
    as [(Hpos & row & Hrow & Hc) | (Hpos & Hrow)].
  - cbn [snd]. rewrite Hpos, Hrow. simpl. constructor.
    + split; [apply Z.ltb_lt; exact Hpos|]. split; [|exact Hc].
      apply (commitRow_id createdAt weekStartStr st (g 0%nat) e row Hrow).
    + apply (IH (g ∘ S)).
  - cbn [snd]. rewrite Hpos, Hrow. simpl. apply (IH (g ∘ S)).
Qed.

(** C6, as stated, fails: with no person selected, committing a
    staging entry of 8 hours appends nothing. *)
Lemma appendToDatabase_without_person :
  let e := Sample.entry "a" "Google – Brand Film"
             (JsInt 8) (JsStr "") (JsStr "") (JsStr "") (JsStr "") in
  let st := Sample.state "" [e] in
  let st' := appendToDatabase "2025-08-08T18:00:00.000Z" "2025-08-04" st in
  0 < entryTotal e
  ∧ db st' = db st
  ∧ ¬ ∃ rows, db st' = (db st ++ rows)%list
              ∧ Forall2 (λ e row, get row "Total" = JsInt (entryTotal e))
                        (List.filter (λ e, 0 <? entryTotal e) (entries st)) rows.
Proof.
  split; [vm_compute; reflexivity|]. split; [vm_compute; reflexivity|].
  intros (rows & Hdb & Hrows).
  assert (rows = []) as ->.
  { vm_compute in Hdb. destruct rows; [reflexivity | discriminate]. }
  apply Forall2_length in Hrows. vm_compute in Hrows. discriminate.
Qed.

(** C6, amended.  When a person is selected, [appendToDatabase] appends
    to the database one row for each staging entry whose weekday sum is
    positive, in the order of the entries and for no other entry: the
    row of the entry at position [idx] carries the identifier that ends
    with [idx + 1], that sum as [Total], the coerced weekday values, and
    the stamp [createdAt].  When no person is selected it appends
    nothing and asks for one.  The staging entries are left as they are
    in both cases. *)
Theorem appendToDatabase_commits_positive (createdAt weekStartStr : string) (st : State) :
  let st' := appendToDatabase createdAt weekStartStr st in
  (truthy (person st) = true →
   ∃ rows,
     db st' = (db st ++ rows)%list
     ∧ Forall2 (λ (ie : nat * obj) row,
                  0 < entryTotal ie.2
                  ∧ get row "ID" = JsStr (Spec.row_id st ie.1)
                  ∧ get row "Total" = JsInt (entryTotal ie.2)
                  ∧ get row "Created_At" = JsStr createdAt
                  ∧ (∀ d, d ∈ DAYS → get row d = JsInt (number_or_0 (get ie.2 d))))
               (List.filter (λ ie, 0 <? entryTotal ie.2) (imap pair (entries st))) rows)
  ∧ (truthy (person st) = false →
     db st' = db st ∧ toast st' = "Selecione a pessoa antes de salvar.")
  ∧ entries st' = entries st.
Proof.
  intros st'. subst st'. split; [|split].
  - intros Hp.
    exists (mjoin (imap (commitRow createdAt weekStartStr st) (entries st))).
    split; [apply db_appendToDatabase; exact Hp|].
    assert (Hall : Forall2 (λ (ie : nat * obj) row,
                              0 < entryTotal ie.2
                              ∧ get row "ID" = JsStr (Spec.row_id st ie.1)
                              ∧ Spec.committed createdAt st ie.2 row)
                     (List.filter (λ ie, 0 <? entryTotal ie.2) (imap pair (entries st)))
                     (mjoin (imap (commitRow createdAt weekStartStr st) (entries st))))
      by exact (commit_rows_indexed createdAt weekStartStr st id (entries st)).
    eapply Forall2_impl; [exact Hall|].
    intros ie row (Hpos & Hid & Ht & Hc & Hd & _). repeat split; assumption.
  - intros Hp. unfold appendToDatabase. rewrite Hp. split; reflexivity.
  - unfold appendToDatabase. destruct (truthy (person st)); reflexivity.
Qed.

Lemma appendToDatabase_commits_positive_witness :
  let st := Sample.state "Alice Silva"
              [ Sample.entry "a" "Google – Brand Film"
                  (JsInt 8) (JsInt 8) (JsStr "") (JsStr "") (JsStr "");
                Sample.entry "b" "Stone – Investor Day"
                  (JsStr "") (JsStr "") (JsStr "") (JsInt 0) (JsStr "") ] in
  let st' := appendToDatabase "2025-08-08T18:00:00.000Z" "2025-08-04" st in
  ∃ rows,
    db st' = (db st ++ rows)%list
    ∧ Forall2 (λ (ie : nat * obj) row,
                 0 < entryTotal ie.2
                 ∧ get row "ID" = JsStr (Spec.row_id st ie.1)
                 ∧ get row "Total" = JsInt (entryTotal ie.2)
                 ∧ get row "Created_At" = JsStr "2025-08-08T18:00:00.000Z"
                 ∧ (∀ d, d ∈ DAYS → get row d = JsInt (number_or_0 (get ie.2 d))))
              (List.filter (λ ie, 0 <? entryTotal ie.2) (imap pair (entries st))) rows.
Proof.
  apply (appendToDatabase_commits_positive "2025-08-08T18:00:00.000Z" "2025-08-04").
  reflexivity.
Defined.

(** The rows a commit appends satisfy the invariant of the data model. *)
Lemma committed_total_is_sum (createdAt : string) (st : State) (e row : obj) :
  Spec.committed createdAt st e row → Spec.total_is_sum row.
Proof.
  intros (Ht & _ & Hd & _). unfold Spec.total_is_sum. rewrite Ht.
  rewrite !entryTotal_days.
  rewrite !Hd by (rewrite list_elem_of_In; simpl; tauto). reflexivity.
Qed.

Lemma appendToDatabase_total_is_sum (createdAt weekStartStr : string) (st : State) :
  Forall Spec.total_is_sum (db st) →
  Forall Spec.total_is_sum (db (appendToDatabase createdAt weekStartStr st)).
Proof.
  intros Hdb. unfold appendToDatabase.
  destruct (truthy (person st)); [|exact Hdb]. simpl.
  apply Forall_app. split; [exact Hdb|].
  pose proof (commit_rows_filter createdAt st (commitRow createdAt weekStartStr st)
                (entries st) (commitRow_cases createdAt weekStartStr st)) as Hall.
  revert Hall. generalize (List.filter (λ e, 0 <? entryTotal e) (entries st)).
  intros l Hall. induction Hall as [|e row l rows Hc _ IH]; constructor; [|exact IH].
  apply (committed_total_is_sum createdAt st e row Hc).
Qed.

(** [mapFromSupabase] copies [total] from the remote row: the mapped
    row satisfies the invariant when the remote row does, which the
    generated column of the remote table provides. *)
Lemma mapFromSupabase_total_is_sum (r : obj) :
  get r "total"
  = JsInt (number_or_0 (get r "mon") + number_or_0 (get r "tue") + number_or_0 (get r "wed")
           + number_or_0 (get r "thu") + number_or_0 (get r "fri")) →
  Spec.total_is_sum (mapFromSupabase r).
Proof.
  intros Htotal. unfold Spec.total_is_sum. rewrite entryTotal_days.
  change (get (mapFromSupabase r) "Total") with (get r "total").
  change (get (mapFromSupabase r) "Mon") with (get r "mon").
  change (get (mapFromSupabase r) "Tue") with (get r "tue").
  change (get (mapFromSupabase r) "Wed") with (get r "wed").
  change (get (mapFromSupabase r) "Thu") with (get r "thu").
  change (get (mapFromSupabase r) "Fri") with (get r "fri").
  exact Htotal.
Qed.

(** C5 fails on the row-edit path.  A row committed with 8 hours on
    Monday satisfies the invariant; after the user edits Monday to 5 in
    the table and saves, the stored row has [Mon = "5"] and still
    [Total = 8]: [saveEditRow] stores the edited values as they are and
    does not recompute [Total]. *)
Theorem saveEditRow_stale_Total :
  let st0 := Sample.state "Alice Silva"
               [ Sample.entry "a" "Google – Brand Film"
                   (JsInt 8) (JsStr "") (JsStr "") (JsStr "") (JsStr "") ] in
  let st1 := appendToDatabase "2025-08-08T18:00:00.000Z" "2025-08-04" st0 in
  ∃ row,
    db st1 = [row] ∧ Spec.total_is_sum row
    ∧ let st2 := saveEditRow (changeEditing "Mon" "5" (startEditRow row st1)) in
      ∃ row',
        db st2 = [row']
        ∧ get row' "Mon" = JsStr "5" ∧ get row' "Total" = JsInt 8
        ∧ entryTotal row' = 5
        ∧ ¬ Spec.total_is_sum row'.
Proof.
  exists (Sample.db_row "Alice Silva" "Google – Brand Film" "2025-08-04" 32 1 8).
  split; [vm_compute; reflexivity|]. split; [vm_compute; reflexivity|].
  exists (<["Mon" := JsStr "5"]>
            (Sample.db_row "Alice Silva" "Google – Brand Film" "2025-08-04" 32 1 8)).
  split; [vm_compute; reflexivity|]. split; [vm_compute; reflexivity|].
  split; [vm_compute; reflexivity|]. split; [vm_compute; reflexivity|].
  unfold Spec.total_is_sum. vm_compute. discriminate.
Qed.

End Durable.

(** ** Maps and sets in insertion order *)

Section Containers.
Import Js JsData.

Lemma existsb_same_value_zero (x : JsVal) (s : list JsVal) :
  existsb (same_value_zero x) s = bool_decide (x ∈ s).
Proof.
  induction s as [|y s IH]; cbn [existsb].
  - symmetry. apply bool_decide_eq_false_2, not_elem_of_nil.
  - rewrite IH. unfold same_value_zero.
    destruct (decide (x = y)) as [->|Hne].
    + rewrite (bool_decide_eq_true_2 (y = y)) by reflexivity. simpl.
      symmetry. apply bool_decide_eq_true. left.
    + rewrite (bool_decide_eq_false_2 (x = y)) by assumption. simpl.
      apply bool_decide_ext. rewrite elem_of_cons. tauto.
Qed.

Lemma set_add_in (x : JsVal) (s : list JsVal) : x ∈ s → set_add x s = s.
Proof.
  intros Hin. unfold set_add. rewrite existsb_same_value_zero.
  rewrite bool_decide_eq_true_2 by assumption. reflexivity.
Qed.

Lemma set_add_notin (x : JsVal) (s : list JsVal) : x ∉ s → set_add x s = (s ++ [x])%list.
Proof.
  intros Hin. unfold set_add. rewrite existsb_same_value_zero.
  rewrite bool_decide_eq_false_2 by assumption. reflexivity.
Qed.

Lemma elem_of_filter_ne (x a : JsVal) (l : list JsVal) :
  x ∈ List.filter (λ y, negb (bool_decide (y = a))) l ↔ x ∈ l ∧ x ≠ a.
Proof.
  rewrite !list_elem_of_In, filter_In, negb_true_iff, bool_decide_eq_false. tauto.
Qed.

Lemma elem_of_first_seen (x : JsVal) (l : list JsVal) : x ∈ Spec.first_seen l ↔ x ∈ l.
Proof.
  induction l as [|a l IH]; simpl; [tauto|].
  rewrite !elem_of_cons, elem_of_filter_ne, IH.
  destruct (decide (x = a)); tauto.
Qed.

Lemma NoDup_filter_ne (a : JsVal) (l : list JsVal) :
  NoDup l → NoDup (List.filter (λ y, negb (bool_decide (y = a))) l).
Proof.
  induction 1 as [|x l Hx _ IH]; simpl; [constructor|].
  destruct (negb (bool_decide (x = a))); [|exact IH].
  constructor; [|exact IH]. rewrite elem_of_filter_ne. tauto.
Qed.

Lemma NoDup_first_seen (l : list JsVal) : NoDup (Spec.first_seen l).
Proof.
  induction l as [|a l IH]; simpl; constructor.
  - rewrite elem_of_filter_ne. tauto.
  - apply NoDup_filter_ne, IH.
Qed.

(** A [Set] filled by successive [add] holds the values in the order
    of their first appearance. *)
Lemma first_seen_snoc (l : list JsVal) (x : JsVal) :
  Spec.first_seen (l ++ [x]) = set_add x (Spec.first_seen l).
Proof.
  induction l as [|a l IH]; [reflexivity|].
  cbn [app Spec.first_seen]. rewrite IH.
  destruct (decide (x ∈ Spec.first_seen l)) as [Hin|Hnotin].
  - rewrite (set_add_in x (Spec.first_seen l)) by assumption.
    symmetry. apply set_add_in.
    rewrite elem_of_cons, elem_of_filter_ne.
    destruct (decide (x = a)); tauto.
  - rewrite (set_add_notin x (Spec.first_seen l)) by assumption.
    rewrite List.filter_app. cbn [List.filter].
    destruct (decide (x = a)) as [->|Hne].
    + rewrite (bool_decide_eq_true_2 (a = a)) by reflexivity. cbn [negb].
      rewrite app_nil_r. symmetry. apply set_add_in. left.
    + rewrite (bool_decide_eq_false_2 (x = a)) by assumption. cbn [negb].
      symmetry. rewrite set_add_notin; [reflexivity|].
      rewrite elem_of_cons, elem_of_filter_ne. tauto.
Qed.

Lemma length_first_seen (l : list JsVal) :
  length (Spec.first_seen l) = length (remove_dups l).
Proof.
  apply Permutation_length, NoDup_Permutation.
  - apply NoDup_first_seen.
  - apply NoDup_remove_dups.
  - intros x. rewrite elem_of_first_seen, elem_of_remove_dups. reflexivity.
Qed.

(** A [Map] whose keys are [keys] and whose value at [k] is [f k]. *)
Lemma map_get_tabulate {V} (f : JsVal → V) (keys : list JsVal) (k : JsVal) :
  map_get k (map (λ k, (k, f k)) keys) = if bool_decide (k ∈ keys) then Some (f k) else None.
Proof.
  induction keys as [|a keys IH]; cbn [map map_get fst snd].
  - rewrite bool_decide_eq_false_2 by apply not_elem_of_nil. reflexivity.
  - unfold same_value_zero. destruct (decide (a = k)) as [->|Hne].
    + rewrite (bool_decide_eq_true_2 (k = k)) by reflexivity.
      rewrite bool_decide_eq_true_2 by left. reflexivity.
    + rewrite (bool_decide_eq_false_2 (a = k)) by assumption. rewrite IH.
      apply (f_equal (λ b : bool, if b then Some (f k) else None)).
      apply bool_decide_ext. rewrite elem_of_cons. split; [tauto|].
      intros [->|H]; [congruence | assumption].
Qed.

Lemma map_set_tabulate {V} (f g : JsVal → V) (keys : list JsVal) (k0 : JsVal) :
  NoDup keys →
  (∀ k, k ≠ k0 → g k = f k) →
  map_set k0 (g k0) (map (λ k, (k, f k)) keys) = map (λ k, (k, g k)) (set_add k0 keys).
Proof.
  intros Hnd Hg. destruct (decide (k0 ∈ keys)) as [Hin|Hnotin].
  - rewrite set_add_in by assumption.
    induction Hnd as [|a keys Ha Hnd IH]; [inversion Hin|].
    simpl. unfold same_value_zero. destruct (decide (a = k0)) as [->|Hne].
    + rewrite (bool_decide_eq_true_2 (k0 = k0)) by reflexivity. f_equal.
      apply map_ext_in. intros k Hk. rewrite Hg; [reflexivity|].
      intros ->. apply Ha, list_elem_of_In, Hk.
    + rewrite (bool_decide_eq_false_2 (a = k0)) by assumption.
      rewrite (Hg a Hne). f_equal. apply IH.
      apply elem_of_cons in Hin as [->|Hin]; [congruence | assumption].
  - rewrite set_add_notin by assumption. rewrite map_app. simpl.
    clear Hnd. induction keys as [|a keys IH]; [reflexivity|].
    simpl. unfold same_value_zero.
    rewrite not_elem_of_cons in Hnotin. destruct Hnotin as [Hne Hnotin].
    rewrite (bool_decide_eq_false_2 (a = k0)) by congruence.
    rewrite (Hg a) by congruence. f_equal. apply IH, Hnotin.
Qed.

End Containers.

(** ** [groupTotals] *)

Section GroupTotals.
Import Js JsData Dashboard.

Lemma sum_Total_app (l1 l2 : list (option obj)) :
  Spec.sum_Total (l1 ++ l2) = Spec.sum_Total l1 + Spec.sum_Total l2.
Proof.
  unfold Spec.sum_Total. induction l1 as [|r l1 IH]; simpl; [reflexivity|].
  rewrite IH. lia.
Qed.

Lemma members_snoc (key : string) (k : JsVal) (l : list (option obj)) (r : option obj) :
  Spec.members key k (l ++ [r])
  = (Spec.members key k l ++ if bool_decide (Spec.groupKey key r = k) then [r] else [])%list.
Proof. unfold Spec.members. rewrite List.filter_app. reflexivity. Qed.

Lemma members_nil (key : string) (k : JsVal) (l : list (option obj)) :
  k ∉ map (Spec.groupKey key) l → Spec.members key k l = [].
Proof.
  intros Hk. unfold Spec.members. induction l as [|r l IH]; [reflexivity|].
  simpl in *. rewrite not_elem_of_cons in Hk. destruct Hk as [Hne Hk].
  rewrite bool_decide_eq_false_2 by congruence. apply IH, Hk.
Qed.

Lemma seen_values_snoc (prop : string) (l : list (option obj)) (r : option obj) :
  Spec.seen_values prop (l ++ [r])
  = if truthy (get_opt r prop) then set_add (get_opt r prop) (Spec.seen_values prop l)
    else Spec.seen_values prop l.
Proof.
  unfold Spec.seen_values. rewrite map_app, List.filter_app. cbn [map List.filter].
  destruct (truthy (get_opt r prop)).
  - apply first_seen_snoc.
  - rewrite app_nil_r. reflexivity.
Qed.

(** The [Map] of [groupTotals] after the rows [l]. *)
Lemma groupTotals_step_spec (key : string) (l : list (option obj)) (r : option obj) :
  groupTotals_step key
    (map (λ k, (k, Spec.agg_of key l k)) (Spec.first_seen (map (Spec.groupKey key) l))) r
  = map (λ k, (k, Spec.agg_of key (l ++ [r]) k))
        (Spec.first_seen (map (Spec.groupKey key) (l ++ [r]))).
Proof.
  unfold groupTotals_step.
  change (or_else (get_opt r key) (JsStr "—")) with (Spec.groupKey key r).
  set (k0 := Spec.groupKey key r).
  set (keys := Spec.first_seen (map (Spec.groupKey key) l)).
  assert (Hbase : default (mkAgg k0 0 [] []) (map_get k0 (map (λ k, (k, Spec.agg_of key l k)) keys))
                  = Spec.agg_of key l k0).
  { rewrite map_get_tabulate. destruct (decide (k0 ∈ keys)) as [Hin|Hnotin].
    - rewrite bool_decide_eq_true_2 by assumption. reflexivity.
    - rewrite bool_decide_eq_false_2 by assumption. simpl.
      unfold Spec.agg_of. rewrite members_nil; [reflexivity|].
      intros Hin. apply Hnotin. apply elem_of_first_seen, Hin. }
  rewrite Hbase.
  assert (Hnew : mkAgg (agg_name (Spec.agg_of key l k0))
                   (agg_total (Spec.agg_of key l k0) + number_or_0 (get_opt r "Total"))
                   (if truthy (get_opt r "Person")
                    then set_add (get_opt r "Person") (people (Spec.agg_of key l k0))
                    else people (Spec.agg_of key l k0))
                   (if truthy (get_opt r "Project")
                    then set_add (get_opt r "Project") (projects (Spec.agg_of key l k0))
                    else projects (Spec.agg_of key l k0))
                 = Spec.agg_of key (l ++ [r]) k0).
  { unfold Spec.agg_of. cbn [agg_name agg_total people projects].
    rewrite members_snoc. fold k0.
    rewrite (bool_decide_eq_true_2 (k0 = k0)) by reflexivity.
    rewrite sum_Total_app, !seen_values_snoc.
    f_equal. unfold Spec.sum_Total. simpl. lia. }
  rewrite Hnew.
  rewrite map_app. cbn [map]. fold k0. rewrite first_seen_snoc. fold keys.
  apply (map_set_tabulate (Spec.agg_of key l) (Spec.agg_of key (l ++ [r])) keys k0).
  - apply NoDup_first_seen.
  - intros k Hk. unfold Spec.agg_of. rewrite members_snoc. fold k0.
    rewrite bool_decide_eq_false_2 by congruence. rewrite app_nil_r. reflexivity.
Qed.

Lemma groupTotals_fold (key : string) (rows l : list (option obj)) :
  fold_left (groupTotals_step key) rows
    (map (λ k, (k, Spec.agg_of key l k)) (Spec.first_seen (map (Spec.groupKey key) l)))
  = map (λ k, (k, Spec.agg_of key (l ++ rows) k))
        (Spec.first_seen (map (Spec.groupKey key) (l ++ rows))).
Proof.
  revert l. induction rows as [|r rows IH]; intros l.
  - rewrite app_nil_r. reflexivity.
  - cbn [fold_left]. rewrite groupTotals_step_spec, IH, <- app_assoc. reflexivity.
Qed.

(** C7. [groupTotals] reports one bucket for each group key of the
    rows, in the order of first appearance, where the group key of a row
    is the value of the dimension or the sentinel when that value is
    missing or empty; the bucket holds the sum of [Number(Total) || 0]
    over the rows of the group and the numbers of distinct non-empty
    [Person] and [Project] values among them.  Every row, whatever its
    [Total], is in the bucket of its key and is counted there. *)
Theorem groupTotals_spec (rows : list (option obj)) (key : string) :
  groupTotals rows key
  = map (Spec.bucket_of key rows) (Spec.first_seen (map (Spec.groupKey key) rows))
  ∧ NoDup (map name (groupTotals rows key))
  ∧ (∀ r, r ∈ rows →
       ∃ b, b ∈ groupTotals rows key
            ∧ name b = Spec.groupKey key r
            ∧ r ∈ Spec.members key (name b) rows
            ∧ total b = Spec.sum_Total (Spec.members key (name b) rows)
            ∧ peopleCount b = Spec.count_distinct "Person" (Spec.members key (name b) rows)
            ∧ projectsCount b = Spec.count_distinct "Project" (Spec.members key (name b) rows))
  ∧ (∀ r, truthy (get_opt r key) = false → Spec.groupKey key r = JsStr "—")
  ∧ (∀ r, truthy (get_opt r key) = true → Spec.groupKey key r = get_opt r key).
Proof.
  assert (Heq : groupTotals rows key
                = map (Spec.bucket_of key rows)
                      (Spec.first_seen (map (Spec.groupKey key) rows))).
  { unfold groupTotals.
    pose proof (groupTotals_fold key rows []) as Hfold.
    cbn [map Spec.first_seen app] in Hfold. rewrite Hfold.
    rewrite <- list_fmap_compose. apply map_ext. intros k.
    unfold Spec.bucket_of, Spec.agg_of, Spec.count_distinct, Spec.seen_values.
    cbn. rewrite !length_first_seen. reflexivity. }
  split; [exact Heq|]. split; [|split; [|split]].
  - rewrite Heq, <- list_fmap_compose.
    rewrite (map_ext _ id) by reflexivity. rewrite map_id. apply NoDup_first_seen.
  - intros r Hr. exists (Spec.bucket_of key rows (Spec.groupKey key r)).
    split; [|split; [reflexivity|split; [|repeat split]]].
    + rewrite Heq. apply list_elem_of_fmap. eexists. split; [reflexivity|].
      apply elem_of_first_seen, list_elem_of_fmap. eexists. split; [reflexivity | exact Hr].
    + cbn. unfold Spec.members. apply list_elem_of_In, filter_In.
      split; [apply list_elem_of_In, Hr|]. apply bool_decide_eq_true. reflexivity.
  - intros r Hr. unfold Spec.groupKey, or_else. rewrite Hr. reflexivity.
  - intros r Hr. unfold Spec.groupKey, or_else. rewrite Hr. reflexivity.
Qed.

End GroupTotals.

(** ** Sorting *)

Section Sorting.
Import Js JsData.
Context {A : Type} (cmp : A → A → Z).

Lemma insert_Permutation (x : A) (l : list A) : insert cmp x l ≡ₚ x :: l.
Proof.
  induction l as [|y l IH]; simpl; [reflexivity|].
  destruct (0 <? cmp x y); [|reflexivity].
  rewrite IH. apply Permutation_swap.
Qed.

Lemma sort_Permutation (l : list A) : sort cmp l ≡ₚ l.
Proof.
  induction l as [|x l IH]; simpl; [reflexivity|].
  rewrite insert_Permutation, IH. reflexivity.
Qed.

(** The output is ordered by any relation that holds from [x] to [y]
    when the comparison does not put [x] after [y], and from [y] to [x]
    when it does. *)
Context (R : A → A → Prop).
Hypothesis R_before : ∀ x y, cmp x y ≤ 0 → R x y.
Hypothesis R_after : ∀ x y, 0 < cmp x y → R y x.

Lemma insert_HdRel (a x : A) (l : list A) :
  R a x → HdRel R a l → HdRel R a (insert cmp x l).
Proof.
  intros Hax Hal. destruct l as [|y l]; simpl; [constructor; exact Hax|].
  destruct (0 <? cmp x y); constructor; [|exact Hax].
  inversion Hal; assumption.
Qed.

Lemma insert_Sorted (x : A) (l : list A) : Sorted R l → Sorted R (insert cmp x l).
Proof.
  induction 1 as [|y l Hl IH Hy]; simpl; [repeat constructor|].
  destruct (0 <? cmp x y) eqn:Hc.
  - apply Z.ltb_lt in Hc. constructor; [exact IH|].
    apply insert_HdRel; [apply R_after; exact Hc | exact Hy].
  - apply Z.ltb_ge in Hc. constructor; [constructor; assumption|].
    constructor. apply R_before; exact Hc.
Qed.

Lemma sort_Sorted (l : list A) : Sorted R (sort cmp l).
Proof.
  induction l as [|x l IH]; simpl; [constructor|]. apply insert_Sorted, IH.
Qed.

End Sorting.

Section StringOrder.
Import Js JsData.

Lemma string_cmp_le (a b : string) : string_cmp a b ≤ 0 → String.le a b.
Proof.
  unfold string_cmp, String.le, String.leb.
  destruct (String.compare a b); simpl; intros H; try exact I; lia.
Qed.

Lemma string_cmp_gt (a b : string) : 0 < string_cmp a b → String.le b a.
Proof.
  unfold string_cmp, String.le, String.leb. rewrite (String.compare_antisym a b).
  destruct (String.compare b a); simpl; intros H; try exact I; lia.
Qed.

End StringOrder.

(** ** [monthlyProportion] *)

Section Monthly.
Import Js JsData Platform Dashboard.
Context `{JsDate}.

Lemma sum_hours_app (l1 l2 : list obj) :
  Spec.sum_hours (l1 ++ l2) = Spec.sum_hours l1 + Spec.sum_hours l2.
Proof.
  unfold Spec.sum_hours. induction l1 as [|r l1 IH]; simpl; [reflexivity|].
  rewrite IH. lia.
Qed.

Lemma sum_hours_snoc (l : list obj) (r : obj) :
  Spec.sum_hours (l ++ [r]) = Spec.sum_hours l + number_or_0 (get r "Total").
Proof. rewrite sum_hours_app. unfold Spec.sum_hours. simpl. lia. Qed.

Lemma month_rows_snoc (mk : JsVal) (l : list obj) (r : obj) :
  Spec.month_rows mk (l ++ [r])
  = (Spec.month_rows mk l ++ if bool_decide (Spec.month_key r = mk) then [r] else [])%list.
Proof. unfold Spec.month_rows. rewrite List.filter_app. reflexivity. Qed.

Lemma month_rows_nil (mk : JsVal) (l : list obj) :
  mk ∉ map Spec.month_key l → Spec.month_rows mk l = [].
Proof.
  intros Hk. unfold Spec.month_rows. induction l as [|r l IH]; [reflexivity|].
  simpl in *. rewrite not_elem_of_cons in Hk. destruct Hk as [Hne Hk].
  rewrite bool_decide_eq_false_2 by congruence. apply IH, Hk.
Qed.

Lemma project_rows_snoc (p : JsVal) (l : list obj) (r : obj) :
  Spec.project_rows p (l ++ [r])
  = (Spec.project_rows p l ++ if bool_decide (Spec.project_key r = p) then [r] else [])%list.
Proof. unfold Spec.project_rows. rewrite List.filter_app. reflexivity. Qed.

Lemma project_rows_nil (p : JsVal) (l : list obj) :
  p ∉ map Spec.project_key l → Spec.project_rows p l = [].
Proof.
  intros Hk. unfold Spec.project_rows. induction l as [|r l IH]; [reflexivity|].
  simpl in *. rewrite not_elem_of_cons in Hk. destruct Hk as [Hne Hk].
  rewrite bool_decide_eq_false_2 by congruence. apply IH, Hk.
Qed.

(** A [Map] of sums read at any key, present or not. *)
Lemma map_get_sums (f : JsVal → Z) (g : obj → JsVal) (l : list obj) (k : JsVal) :
  (k ∉ map g l → f k = 0) →
  default 0 (map_get k (map (λ k, (k, f k)) (Spec.first_seen (map g l)))) = f k.
Proof.
  intros Hf. rewrite map_get_tabulate.
  destruct (decide (k ∈ Spec.first_seen (map g l))) as [Hin|Hnotin].
  - rewrite bool_decide_eq_true_2 by assumption. reflexivity.
  - rewrite bool_decide_eq_false_2 by assumption. simpl. symmetry. apply Hf.
    intros Hin. apply Hnotin, elem_of_first_seen, Hin.
Qed.

(** The inner [Map] of a month, project by project, after one more row
    of that month. *)
Lemma project_hours_snoc (ms : list obj) (r : obj) :
  let p := Spec.project_key r in
  let mp := Spec.project_hours_of ms in
  map_set p (default 0 (map_get p mp) + number_or_0 (get r "Total")) mp
  = Spec.project_hours_of (ms ++ [r]).
Proof.
  intros p mp. subst mp. unfold Spec.project_hours_of.
  rewrite map_get_sums by (intros Hp; rewrite project_rows_nil by assumption; reflexivity).
  rewrite map_app. cbn [map]. fold p. rewrite first_seen_snoc.
  replace (Spec.sum_hours (Spec.project_rows p ms) + number_or_0 (get r "Total"))
    with (Spec.sum_hours (Spec.project_rows p (ms ++ [r]))).
  - apply (map_set_tabulate (λ p, Spec.sum_hours (Spec.project_rows p ms))
                            (λ p, Spec.sum_hours (Spec.project_rows p (ms ++ [r])))).
    + apply NoDup_first_seen.
    + intros k Hk. rewrite project_rows_snoc. fold p.
      rewrite bool_decide_eq_false_2 by congruence. rewrite app_nil_r. reflexivity.
  - rewrite project_rows_snoc. fold p.
    rewrite (bool_decide_eq_true_2 (p = p)) by reflexivity. apply sum_hours_snoc.
Qed.

(** The two [Map]s of [monthlyProportion] after the rows [l]. *)
Lemma monthly_step_spec (l : list obj) (r : obj) :
  monthly_step
    (map (λ mk, (mk, Spec.sum_hours (Spec.month_rows mk l)))
         (Spec.first_seen (map Spec.month_key l)),
     map (λ mk, (mk, Spec.project_hours_of (Spec.month_rows mk l)))
         (Spec.first_seen (map Spec.month_key l))) r
  = (map (λ mk, (mk, Spec.sum_hours (Spec.month_rows mk (l ++ [r]))))
         (Spec.first_seen (map Spec.month_key (l ++ [r]))),
     map (λ mk, (mk, Spec.project_hours_of (Spec.month_rows mk (l ++ [r]))))
         (Spec.first_seen (map Spec.month_key (l ++ [r])))).
Proof.
  unfold monthly_step.
  change (JsStr (toMonthKey r)) with (Spec.month_key r).
  change (or_else (get r "Project") (JsStr "—")) with (Spec.project_key r).
  set (mk := Spec.month_key r).
  set (keys := Spec.first_seen (map Spec.month_key l)).
  assert (Hkeys : Spec.first_seen (map Spec.month_key (l ++ [r])) = set_add mk keys).
  { rewrite map_app. cbn [map]. apply first_seen_snoc. }
  rewrite Hkeys.
  assert (Hmine : Spec.month_rows mk (l ++ [r]) = (Spec.month_rows mk l ++ [r])%list).
  { rewrite month_rows_snoc. fold mk.
    rewrite (bool_decide_eq_true_2 (mk = mk)) by reflexivity. reflexivity. }
  assert (Hother : ∀ k, k ≠ mk → Spec.month_rows k (l ++ [r]) = Spec.month_rows k l).
  { intros k Hk. rewrite month_rows_snoc. fold mk.
    rewrite bool_decide_eq_false_2 by congruence. apply app_nil_r. }
  f_equal.
  - unfold keys.
    rewrite map_get_sums by (intros Hk; rewrite month_rows_nil by assumption; reflexivity).
    rewrite <- sum_hours_snoc, <- Hmine.
    apply (map_set_tabulate (λ k, Spec.sum_hours (Spec.month_rows k l))
                            (λ k, Spec.sum_hours (Spec.month_rows k (l ++ [r])))).
    + apply NoDup_first_seen.
    + intros k Hk. rewrite Hother by assumption. reflexivity.
  - assert (Hmp : default [] (map_get mk (map (λ k, (k, Spec.project_hours_of (Spec.month_rows k l))) keys))
                  = Spec.project_hours_of (Spec.month_rows mk l)).
    { rewrite map_get_tabulate. destruct (decide (mk ∈ keys)) as [Hin|Hnotin].
      - rewrite bool_decide_eq_true_2 by assumption. reflexivity.
      - rewrite bool_decide_eq_false_2 by assumption. simpl.
        rewrite month_rows_nil; [reflexivity|].
        intros Hin. apply Hnotin, elem_of_first_seen, Hin. }
    rewrite Hmp, project_hours_snoc, <- Hmine.
    apply (map_set_tabulate (λ k, Spec.project_hours_of (Spec.month_rows k l))
                            (λ k, Spec.project_hours_of (Spec.month_rows k (l ++ [r])))).
    + apply NoDup_first_seen.
    + intros k Hk. rewrite Hother by assumption. reflexivity.
Qed.

Lemma monthly_fold (rows l : list obj) :
  fold_left monthly_step rows
    (map (λ mk, (mk, Spec.sum_hours (Spec.month_rows mk l)))
         (Spec.first_seen (map Spec.month_key l)),
     map (λ mk, (mk, Spec.project_hours_of (Spec.month_rows mk l)))
         (Spec.first_seen (map Spec.month_key l)))
  = (map (λ mk, (mk, Spec.sum_hours (Spec.month_rows mk (l ++ rows))))
         (Spec.first_seen (map Spec.month_key (l ++ rows))),
     map (λ mk, (mk, Spec.project_hours_of (Spec.month_rows mk (l ++ rows))))
         (Spec.first_seen (map Spec.month_key (l ++ rows)))).
Proof.
  revert l. induction rows as [|r rows IH]; intros l.
  - rewrite app_nil_r. reflexivity.
  - cbn [fold_left]. rewrite monthly_step_spec, IH, <- app_assoc. reflexivity.
Qed.

(** [monthlyProportion] month by month. *)
Lemma monthlyProportion_rows (db : list obj) :
  monthlyProportion db
  = map (Spec.month_row_of db)
        (sort (λ a b, string_cmp (ToString a) (ToString b))
              (Spec.first_seen (map Spec.month_key db))).
Proof.
  unfold monthlyProportion.
  pose proof (monthly_fold db []) as Hfold.
  cbn [map Spec.first_seen app] in Hfold. rewrite Hfold.
  rewrite <- list_fmap_compose.
  rewrite (map_ext (fst ∘ (λ mk, (mk, Spec.sum_hours (Spec.month_rows mk db)))) id)
    by reflexivity.
  rewrite map_id. apply map_ext. intros mk. unfold Spec.month_row_of.
  rewrite map_get_sums by (intros Hk; rewrite month_rows_nil by assumption; reflexivity).
  f_equal. f_equal. f_equal.
  rewrite map_get_tabulate.
  destruct (decide (mk ∈ Spec.first_seen (map Spec.month_key db))) as [Hin|Hnotin].
  - rewrite bool_decide_eq_true_2 by assumption. reflexivity.
  - rewrite bool_decide_eq_false_2 by assumption. simpl.
    rewrite month_rows_nil; [reflexivity|].
    intros Hin. apply Hnotin, elem_of_first_seen, Hin.
Qed.

End Monthly.

(** ** The double [(h / t) * 100] *)

Section Binary64Facts.
Import Js JsData Platform Dashboard Binary64.

Lemma digits2_pos_size (p : positive) : digits2_pos p = Pos.size p.
Proof. induction p; simpl; congruence. Qed.

Lemma digits2_pos_bounds (p : positive) :
  2 ^ (Z.pos (digits2_pos p) - 1) <= Z.pos p < 2 ^ Z.pos (digits2_pos p).
Proof.
  induction p as [p IH|p IH|]; cbn [digits2_pos].
  - rewrite Pos2Z.inj_succ. replace (Z.succ (Z.pos (digits2_pos p)) - 1) with ((Z.pos (digits2_pos p) - 1) + 1) by lia.
    rewrite Z.pow_succ_r by lia. rewrite Z.pow_add_r by lia. lia.
  - rewrite Pos2Z.inj_succ. replace (Z.succ (Z.pos (digits2_pos p)) - 1) with ((Z.pos (digits2_pos p) - 1) + 1) by lia.
    rewrite Z.pow_succ_r by lia. rewrite Z.pow_add_r by lia. lia.
  - simpl. lia.
Qed.

Lemma Zdigits2_unique (m d : Z) :
  2 ^ (d - 1) <= m < 2 ^ d -> 0 < d -> Zdigits2 m = d.
Proof.
  intros Hm Hd. assert (0 < m) by (pose proof (Z.pow_pos_nonneg 2 (d - 1)); lia).
  destruct m as [|p|p]; try lia. cbn [Zdigits2].
  pose proof (digits2_pos_bounds p) as Hp.
  set (d' := Z.pos (digits2_pos p)) in *.
  assert (0 < d') by (unfold d'; lia).
  destruct (Z.lt_trichotomy d d') as [Hlt | [Heq | Hgt]]; [|congruence|].
  - assert (2 ^ d <= 2 ^ (d' - 1)) by (apply Z.pow_le_mono_r; lia). lia.
  - assert (2 ^ d' <= 2 ^ (d - 1)) by (apply Z.pow_le_mono_r; lia). lia.
Qed.

Lemma shr_1_inv (N D k : Z) (mrs : shr_record) :
  0 <= k -> 0 < D -> shifted N D k mrs -> shifted N D (k + 1) (shr_1 mrs).
Proof.
  intros Hk HD [Hm (rest & HN & Hrest & Hloc)].
  assert (HW : 0 < 2 ^ k * D) by (pose proof (Z.pow_pos_nonneg 2 k); nia).
  unfold shifted. rewrite Z.pow_add_r, Z.pow_1_r by lia.
  set (W := 2 ^ k * D) in *.
  replace (2 ^ k * 2 * D) with (2 * W) by (unfold W; ring).
  destruct mrs as [m r s]. cbn [shr_m] in *.
  assert (Hs : orb r s = negb (rest =? 0)).
  { unfold locate in Hloc. destruct (rest =? 0); destruct r, s; simpl in *; congruence. }
  unfold shr_1. rewrite Hs. cbn [shr_m].
  destruct m as [|[p|p|]|p]; try lia; cbn [shr_m loc_of_shr_record].
  - (* 0 *) split; [lia|]. exists rest. split; [lia|]. split; [lia|].
    unfold locate. destruct (rest =? 0) eqn:E0; simpl negb; cbv iota; [reflexivity|].
    apply Z.eqb_neq in E0.
    replace (2 * rest ?= 2 * W) with Lt by (symmetry; apply Z.compare_lt_iff; lia).
    reflexivity.
  - (* 2p+1 *) split; [lia|]. exists (rest + W). split; [lia|]. split; [lia|].
    unfold locate. destruct (rest =? 0) eqn:E0.
    + apply Z.eqb_eq in E0. subst rest. simpl negb. cbv iota.
      replace (0 + W =? 0) with false by (symmetry; apply Z.eqb_neq; lia).
      replace (2 * (0 + W) ?= 2 * W) with Eq by (symmetry; apply Z.compare_eq_iff; lia).
      reflexivity.
    + apply Z.eqb_neq in E0. simpl negb. cbv iota.
      replace (rest + W =? 0) with false by (symmetry; apply Z.eqb_neq; lia).
      replace (2 * (rest + W) ?= 2 * W) with Gt by (symmetry; apply Z.compare_gt_iff; lia).
      reflexivity.
  - (* 2p *) split; [lia|]. exists rest. split; [lia|]. split; [lia|].
    unfold locate. destruct (rest =? 0) eqn:E0; simpl negb; cbv iota; [reflexivity|].
    apply Z.eqb_neq in E0.
    replace (2 * rest ?= 2 * W) with Lt by (symmetry; apply Z.compare_lt_iff; lia).
    reflexivity.
  - (* 1 *) split; [lia|]. exists (rest + W). split; [lia|]. split; [lia|].
    unfold locate. destruct (rest =? 0) eqn:E0.
    + apply Z.eqb_eq in E0. subst rest. simpl negb. cbv iota.
      replace (0 + W =? 0) with false by (symmetry; apply Z.eqb_neq; lia).
      replace (2 * (0 + W) ?= 2 * W) with Eq by (symmetry; apply Z.compare_eq_iff; lia).
      reflexivity.
    + apply Z.eqb_neq in E0. simpl negb. cbv iota.
      replace (rest + W =? 0) with false by (symmetry; apply Z.eqb_neq; lia).
      replace (2 * (rest + W) ?= 2 * W) with Gt by (symmetry; apply Z.compare_gt_iff; lia).
      reflexivity.
Qed.

Lemma iter_shr_1_inv (N D : Z) (p : positive) :
  0 < D -> forall k mrs, 0 <= k -> shifted N D k mrs -> shifted N D (k + Z.pos p) (SpecFloat.iter_pos shr_1 p mrs).
Proof.
  intros HD. induction p as [p IH|p IH|]; intros k mrs Hk Hinv; cbn [SpecFloat.iter_pos].
  - replace (k + Z.pos p~1) with (k + 1 + Z.pos p + Z.pos p) by lia.
    apply IH; [lia|]. apply IH; [lia|]. apply shr_1_inv; assumption.
  - replace (k + Z.pos p~0) with (k + Z.pos p + Z.pos p) by lia.
    apply IH; [lia|]. apply IH; assumption.
  - apply shr_1_inv; assumption.
Qed.

Lemma fexp_normal (x : Z) : -1074 <= x - 53 -> fexp prec emax x = x - 53.
Proof. unfold fexp, SpecFloat.emin, prec, emax. lia. Qed.

Lemma loc_of_shr_record_of_loc (m : Z) (l : location) :
  loc_of_shr_record (shr_record_of_loc m l) = l.
Proof. destruct l as [|[]]; reflexivity. Qed.

Lemma shr_m_of_loc (m : Z) (l : location) : shr_m (shr_record_of_loc m l) = m.
Proof. destruct l as [|[]]; reflexivity. Qed.

Lemma shr_inv (N D : Z) (mrs : shr_record) (e n : Z) :
  0 < D -> 0 <= n -> shifted N D 0 mrs ->
  shifted N D n (fst (shr mrs e n)) /\ snd (shr mrs e n) = e + n.
Proof.
  intros HD Hn Hinv. destruct n as [|p|p]; [| |lia]; cbn [shr fst snd].
  - split; [exact Hinv | lia].
  - split; [|reflexivity]. apply (iter_shr_1_inv N D p HD 0 mrs); [lia | exact Hinv].
Qed.

Lemma round_nearest_even_bound (m rest W : Z) :
  0 < W -> 0 <= rest < W ->
  let m' := round_nearest_even m (locate rest W) in
  (m' = m \/ m' = m + 1) /\ 2 * Z.abs (m' * W - (m * W + rest)) <= W.
Proof.
  intros HW Hrest. cbv zeta. unfold locate.
  assert (Hsame : m * W - (m * W + rest) = - rest) by ring.
  assert (Hnext : (m + 1) * W - (m * W + rest) = W - rest) by ring.
  destruct (rest =? 0) eqn:E0; cbn [round_nearest_even].
  - apply Z.eqb_eq in E0. rewrite Hsame. split; [left; reflexivity | lia].
  - apply Z.eqb_neq in E0. destruct (2 * rest ?= W) eqn:Hc.
    + apply Z.compare_eq_iff in Hc.
      destruct (Z.even m); rewrite ?Hsame, ?Hnext;
        (split; [first [left; reflexivity | right; reflexivity] | lia]).
    + rewrite Z.compare_lt_iff in Hc. rewrite Hsame. split; [left; reflexivity | lia].
    + rewrite Z.compare_gt_iff in Hc. rewrite Hnext. split; [right; reflexivity | lia].
Qed.

Lemma round_aux_core (N D E n : Z) :
  0 < D -> 0 <= n ->
  2 ^ (52 + n) <= N / D < 2 ^ (53 + n) ->
  -1074 <= E + n -> E + n + 1 <= 971 ->
  exists m'',
    2 ^ 52 <= m'' <= 2 ^ 53 /\
    2 * Z.abs (m'' * (2 ^ n * D) - N) <= 2 ^ n * D /\
    binary_round_aux prec emax false (N / D) E (locate (N mod D) D)
    = S754_finite false (Z.to_pos (if m'' <? 2 ^ 53 then m'' else 2 ^ 52))
                        (if m'' <? 2 ^ 53 then E + n else E + n + 1).
Proof.
  intros HD Hn Hq HE1 HE2.
  set (q0 := N / D) in *. set (r := N mod D).
  assert (Hdm : N = q0 * D + r) by (unfold q0, r; rewrite Z.mul_comm; apply Z.div_mod; lia).
  assert (Hr : 0 <= r < D) by (apply Z.mod_pos_bound; lia).
  assert (Hpn : 0 < 2 ^ n) by (apply Z.pow_pos_nonneg; lia).
  assert (Hinv0 : shifted N D 0 (shr_record_of_loc q0 (locate r D))).
  { split.
    - rewrite shr_m_of_loc. pose proof (Z.pow_pos_nonneg 2 (52 + n)); lia.
    - exists r. rewrite shr_m_of_loc, loc_of_shr_record_of_loc.
      rewrite Z.pow_0_r, Z.mul_1_l. repeat split; lia. }
  unfold binary_round_aux, shr_fexp.
  rewrite (Zdigits2_unique q0 (53 + n)) by (replace (53 + n - 1) with (52 + n) by lia; lia).
  rewrite fexp_normal by lia.
  replace (53 + n + E - 53 - E) with n by lia.
  destruct (shr_inv N D (shr_record_of_loc q0 (locate r D)) E n HD Hn Hinv0) as [Hinv He].
  destruct (shr (shr_record_of_loc q0 (locate r D)) E n) as [mrs' e'].
  cbn [fst snd] in Hinv, He. subst e'.
  destruct Hinv as [Hm' (rest & HN & Hrest & Hloc)].
  set (m' := shr_m mrs') in *. set (W := 2 ^ n * D) in *.
  assert (HW : 0 < W) by (unfold W; nia).
  rewrite Hloc.
  destruct (round_nearest_even_bound m' rest W HW Hrest) as [Hm'' Hhalf].
  set (m'' := round_nearest_even m' (locate rest W)) in *.
  assert (Hm'b : 2 ^ 52 <= m' < 2 ^ 53).
  { rewrite !Z.pow_add_r in Hq by lia.
    assert (m' * 2 ^ n < q0 + 1) by (unfold W in *; nia).
    assert (q0 < (m' + 1) * 2 ^ n) by (unfold W in *; nia).
    nia. }
  exists m''. split; [lia|]. split.
  { rewrite HN. exact Hhalf. }
  destruct (m'' <? 2 ^ 53) eqn:Hlt.
  - apply Z.ltb_lt in Hlt.
    rewrite (Zdigits2_unique m'' 53) by (simpl; lia).
    rewrite fexp_normal by lia.
    replace (53 + (E + n) - 53 - (E + n)) with 0 by lia.
    cbn [shr shr_record_of_loc shr_m].
    destruct m'' as [|p|p]; try lia.
    replace (E + n <=? emax - prec) with true; [reflexivity|].
    symmetry. apply Z.leb_le. unfold emax, prec. lia.
  - apply Z.ltb_ge in Hlt. assert (m'' = 2 ^ 53) as -> by lia.
    replace (Zdigits2 (2 ^ 53)) with 54 by reflexivity.
    rewrite fexp_normal by lia.
    replace (54 + (E + n) - 53 - (E + n)) with 1 by lia.
    cbn -[Z.add Z.leb Z.sub].
    replace (E + n + 1 <=? emax - prec) with true; [reflexivity|].
    symmetry. apply Z.leb_le. unfold emax, prec. lia.
Qed.

Lemma bpow_add (a b : Z) : bpow (a + b) = (bpow a * bpow b)%R.
Proof. unfold bpow. apply powerRZ_add. lra. Qed.

Lemma bpow_pos (e : Z) : (0 < bpow e)%R.
Proof. unfold bpow. apply powerRZ_lt. lra. Qed.

Lemma bpow_IZR (n : Z) : 0 <= n -> bpow n = IZR (2 ^ n).
Proof.
  intros Hn. unfold bpow. rewrite <- (Z2Nat.id n Hn) at 1 2.
  rewrite <- pow_powerRZ, <- pow_IZR. reflexivity.
Qed.

Lemma bpow_0 : bpow 0 = 1%R.
Proof. reflexivity. Qed.

Lemma bpow_opp (n : Z) : (bpow (- n) * bpow n = 1)%R.
Proof. rewrite <- bpow_add. replace (- n + n) with 0 by lia. apply bpow_0. Qed.

(** Correct rounding: a relative error of at most 2^-53 of the result. *)
Lemma round_aux_real (N D E n : Z) :
  0 < D -> 0 <= n ->
  2 ^ (52 + n) <= N / D < 2 ^ (53 + n) ->
  -1074 <= E + n -> E + n + 1 <= 971 ->
  exists mf ef,
    binary_round_aux prec emax false (N / D) E (locate (N mod D) D) = S754_finite false mf ef
    /\ 2 ^ 52 <= Z.pos mf < 2 ^ 53
    /\ E + n <= ef <= E + n + 1
    /\ (Rabs (SFval mf ef - IZR N / IZR D * bpow E) <= SFval mf ef / IZR (2 ^ 53))%R.
Proof.
  intros HD Hn Hq HE1 HE2.
  destruct (round_aux_core N D E n HD Hn Hq HE1 HE2) as (m'' & Hm'' & Hhalf & Hres).
  assert (HDr : (0 < IZR D)%R) by (apply IZR_lt; exact HD).
  assert (Hpn : 0 < 2 ^ n) by (apply Z.pow_pos_nonneg; lia).
  assert (Hpnr : (0 < IZR (2 ^ n))%R) by (apply IZR_lt; exact Hpn).
  (* the value m'' * 2^(E+n) and its distance to N/D * 2^E *)
  assert (Hdist : (Rabs (IZR m'' * bpow (E + n) - IZR N / IZR D * bpow E)
                   <= bpow (E + n) / 2)%R).
  { apply IZR_le in Hhalf. rewrite mult_IZR, abs_IZR, minus_IZR, !mult_IZR in Hhalf.
    rewrite Z.add_comm, bpow_add, (bpow_IZR n Hn).
    pose proof (bpow_pos E) as HbE.
    replace (IZR m'' * (IZR (2 ^ n) * bpow E) - IZR N / IZR D * bpow E)%R
      with ((IZR m'' * (IZR (2 ^ n) * IZR D) - IZR N) * (bpow E / IZR D))%R
      by (field; lra).
    rewrite Rabs_mult. rewrite (Rabs_pos_eq (bpow E / IZR D)).
    2:{ apply Rlt_le, Rdiv_lt_0_compat; assumption. }
    replace (IZR (2 ^ n) * bpow E / 2)%R
      with ((IZR (2 ^ n) * IZR D / 2) * (bpow E / IZR D))%R by (field; lra).
    apply Rmult_le_compat_r; [apply Rlt_le, Rdiv_lt_0_compat; assumption | lra]. }
  assert (Hb : (0 < bpow (E + n))%R) by apply bpow_pos.
  assert (H52 : (IZR (2 ^ 52) <= IZR m'')%R) by (apply IZR_le; lia).
  assert (H2 : (IZR (2 ^ 53) = 2 * IZR (2 ^ 52))%R) by (rewrite <- mult_IZR; reflexivity).
  assert (Hp52 : (0 < IZR (2 ^ 52))%R) by (apply IZR_lt; reflexivity).
  assert (Hrel : (bpow (E + n) / 2 <= IZR m'' * bpow (E + n) / IZR (2 ^ 53))%R).
  { rewrite H2.
    replace (bpow (E + n) / 2)%R with (IZR (2 ^ 52) * bpow (E + n) / (2 * IZR (2 ^ 52)))%R
      by (field; lra).
    apply Rmult_le_compat_r; [apply Rlt_le, Rinv_0_lt_compat; lra|].
    apply Rmult_le_compat_r; lra. }
  destruct (m'' <? 2 ^ 53) eqn:Hlt.
  - apply Z.ltb_lt in Hlt.
    exists (Z.to_pos m''), (E + n). split; [exact Hres|].
    assert (Hpos : Z.pos (Z.to_pos m'') = m'') by (apply Z2Pos.id; lia).
    rewrite Hpos. split; [lia|]. split; [lia|].
    unfold SFval. rewrite Hpos. lra.
  - apply Z.ltb_ge in Hlt. assert (m'' = 2 ^ 53) by lia. subst m''.
    exists (Z.to_pos (2 ^ 52)), (E + n + 1). split; [exact Hres|].
    split; [simpl; lia|]. split; [lia|].
    unfold SFval.
    replace (IZR (Z.pos (Z.to_pos (2 ^ 52))) * bpow (E + n + 1))%R
      with (IZR (2 ^ 53) * bpow (E + n))%R.
    + lra.
    + assert (Hb1 : bpow 1 = 2%R) by (unfold bpow; simpl; lra).
      rewrite (bpow_add (E + n) 1), Hb1, H2.
      change (Z.pos (Z.to_pos (2 ^ 52))) with (2 ^ 52). ring.
Qed.

Lemma Rabs_le_inv (x a : R) : (Rabs x <= a -> - a <= x <= a)%R.
Proof. unfold Rabs. destruct (Rcase_abs x); lra. Qed.

Lemma new_location_locate (D r : Z) :
  0 < D -> 0 <= r < D -> new_location D r = locate r D.
Proof.
  intros HD Hr. unfold new_location, new_location_even, new_location_odd, locate.
  destruct (Z.even D) eqn:Hev; [reflexivity|].
  destruct (r =? 0); [reflexivity|]. f_equal.
  assert (Hodd : Z.odd D = true) by (rewrite <- Z.negb_even, Hev; reflexivity).
  apply Z.odd_spec in Hodd. destruct Hodd as [c Hc].
  destruct (2 * r + 1 ?= D) eqn:H1.
  - apply Z.compare_eq_iff in H1. symmetry. apply Z.compare_lt_iff. lia.
  - rewrite Z.compare_lt_iff in H1. symmetry. apply Z.compare_lt_iff. lia.
  - rewrite Z.compare_gt_iff in H1. symmetry. apply Z.compare_gt_iff. lia.
Qed.

Lemma Pos_iter_xO (p k : positive) : Z.pos (Pos.iter xO p k) = Z.pos p * 2 ^ Z.pos k.
Proof.
  induction k as [|k IH] using Pos.peano_ind.
  - simpl. lia.
  - rewrite Pos.iter_succ, Pos2Z.inj_xO, IH, Pos2Z.inj_succ, Z.pow_succ_r by lia. ring.
Qed.

(** An integer below 2^53 is a double. *)
Lemma binary_normalize_exact (h : Z) :
  0 < h < 2 ^ 53 ->
  exists mh eh,
    binary_normalize prec emax h 0 false = S754_finite false mh eh
    /\ 2 ^ 52 <= Z.pos mh < 2 ^ 53
    /\ -52 <= eh <= 0
    /\ SFval mh eh = IZR h.
Proof.
  intros Hh. destruct h as [|p|p]; try lia.
  cbn [binary_normalize]. unfold binary_round.
  pose proof (digits2_pos_bounds p) as Hd.
  set (d := Z.pos (digits2_pos p)) in *.
  assert (Hd1 : 1 <= d) by (unfold d; lia).
  assert (Hd53 : d <= 53).
  { destruct (Z.le_gt_cases d 53) as [|Hgt]; [assumption|].
    assert (2 ^ 53 <= 2 ^ (d - 1)) by (apply Z.pow_le_mono_r; lia). lia. }
  rewrite Z.add_0_r, fexp_normal by lia.
  assert (Halign : exists mz, shl_align p 0 (d - 53) = (mz, d - 53)
                              /\ Z.pos mz = Z.pos p * 2 ^ (53 - d)).
  { unfold shl_align. rewrite Z.sub_0_r.
    destruct (d - 53) as [|kp|kp] eqn:Hk; try lia.
    - exists p. replace (53 - d) with 0 by lia. split; [reflexivity | simpl; lia].
    - exists (Pos.iter xO p kp). replace (53 - d) with (Z.pos kp) by lia.
      split; [reflexivity | apply Pos_iter_xO]. }
  destruct Halign as (mz & -> & Hmz).
  set (k := 53 - d) in *.
  assert (Hk0 : 0 <= k) by (unfold k; lia).
  assert (Hmzb : 2 ^ 52 <= Z.pos mz < 2 ^ 53).
  { assert (H52 : 2 ^ 52 = 2 ^ (d - 1) * 2 ^ k)
      by (rewrite <- Z.pow_add_r by lia; f_equal; unfold k; lia).
    assert (H53 : 2 ^ 53 = 2 ^ d * 2 ^ k)
      by (rewrite <- Z.pow_add_r by lia; f_equal; unfold k; lia).
    assert (0 < 2 ^ k) by (apply Z.pow_pos_nonneg; lia).
    rewrite Hmz, H52, H53. nia. }
  destruct (round_aux_core (Z.pos mz) 1 (d - 53) 0) as (m'' & Hm'' & Hhalf & Hres);
    try lia.
  { rewrite Z.div_1_r. simpl (52 + 0). simpl (53 + 0). exact Hmzb. }
  rewrite Z.div_1_r, Z.mod_1_r in Hres. change (locate 0 1) with loc_Exact in Hres.
  rewrite Z.pow_0_r, !Z.mul_1_r in Hhalf.
  assert (m'' = Z.pos mz) by lia. subst m''.
  replace (Z.pos mz <? 2 ^ 53) with true in Hres by (symmetry; apply Z.ltb_lt; lia).
  rewrite Z.add_0_r in Hres. cbn [Z.to_pos] in Hres.
  exists mz, (d - 53). split; [exact Hres|]. split; [exact Hmzb|]. split; [lia|].
  unfold SFval. rewrite Hmz, mult_IZR, <- (bpow_IZR k Hk0).
  replace (d - 53) with (- k) by (unfold k; lia).
  pose proof (bpow_opp k) as Hopp. rewrite Rmult_assoc, (Rmult_comm (bpow k)), Hopp. ring.
Qed.

(** Division of two normal doubles whose quotient is normal. *)
Lemma SFdiv_finite (mh mt : positive) (eh et : Z) :
  2 ^ 52 <= Z.pos mh < 2 ^ 53 -> 2 ^ 52 <= Z.pos mt < 2 ^ 53 ->
  -500 <= eh <= 500 -> -500 <= et <= 500 ->
  exists mq eq,
    SFdiv prec emax (S754_finite false mh eh) (S754_finite false mt et)
    = S754_finite false mq eq
    /\ 2 ^ 52 <= Z.pos mq < 2 ^ 53
    /\ eh - et - 53 <= eq <= eh - et - 51
    /\ (Rabs (SFval mq eq - SFval mh eh / SFval mt et) <= SFval mq eq / IZR (2 ^ 53))%R.
Proof.
  intros Hmh Hmt Heh Het.
  unfold SFdiv, SFdiv_core_binary. cbn [xorb].
  rewrite (Zdigits2_unique (Z.pos mh) 53), (Zdigits2_unique (Z.pos mt) 53) by (simpl; lia).
  rewrite fexp_normal by lia.
  replace (Z.min (53 + eh - (53 + et) - 53) (eh - et)) with (eh - et - 53) by lia.
  replace (eh - et - (eh - et - 53)) with 53 by lia.
  cbv iota. rewrite Z.shiftl_mul_pow2 by lia.
  set (N := Z.pos mh * 2 ^ 53). set (D := Z.pos mt). set (E := eh - et - 53).
  assert (HD : 0 < D) by (unfold D; lia).
  assert (Hdm : Z.div_eucl N D = (N / D, N mod D)).
  { unfold Z.div, Z.modulo. destruct (Z.div_eucl N D). reflexivity. }
  rewrite Hdm.
  rewrite new_location_locate by (try apply Z.mod_pos_bound; lia).
  set (n := if Z.pos mh <? D then 0 else 1).
  assert (Hn : 0 <= n <= 1) by (unfold n; destruct (Z.pos mh <? D); lia).
  assert (Hq : 2 ^ (52 + n) <= N / D < 2 ^ (53 + n)).
  { unfold n. destruct (Z.pos mh <? D) eqn:Hlt.
    - apply Z.ltb_lt in Hlt. simpl (52 + 0). simpl (53 + 0). split.
      + apply Z.div_le_lower_bound; [lia|]. unfold N, D in *. nia.
      + apply Z.div_lt_upper_bound; [lia|]. unfold N, D in *. nia.
    - apply Z.ltb_ge in Hlt. simpl (52 + 1). simpl (53 + 1). split.
      + apply Z.div_le_lower_bound; [lia|]. unfold N, D in *. nia.
      + apply Z.div_lt_upper_bound; [lia|]. unfold N, D in *.
        change (2 ^ 54) with (2 * 2 ^ 53). nia. }
  destruct (round_aux_real N D E n HD (proj1 Hn) Hq) as (mq & eq & Hres & Hmq & Heq & Herr);
    try (unfold E; lia).
  exists mq, eq. split; [exact Hres|]. split; [exact Hmq|]. split; [unfold E in *; lia|].
  replace (SFval mh eh / SFval mt et)%R with (IZR N / IZR D * bpow E)%R; [exact Herr|].
  unfold SFval, N, D, E. rewrite mult_IZR, <- (bpow_IZR 53) by lia.
  replace (eh - et - 53) with (eh + (- et + - (53))) by lia.
  rewrite !bpow_add.
  pose proof (bpow_opp et) as Het'. pose proof (bpow_opp 53) as H53'.
  pose proof (bpow_pos et). pose proof (bpow_pos 53). pose proof (bpow_pos (- et)).
  assert (0 < IZR (Z.pos mt))%R by (apply IZR_lt; lia).
  replace (bpow (- et)) with (/ bpow et)%R by (apply Rmult_eq_reg_r with (bpow et); [rewrite Het'; field; lra | lra]).
  replace (bpow (- (53))) with (/ bpow 53)%R by (apply Rmult_eq_reg_r with (bpow 53); [rewrite H53'; field; lra | lra]).
  field. split; lra.
Qed.

(** Multiplication of two normal doubles whose product is normal. *)
Lemma SFmul_finite (mx my : positive) (ex ey : Z) :
  2 ^ 52 <= Z.pos mx < 2 ^ 53 -> 2 ^ 52 <= Z.pos my < 2 ^ 53 ->
  -500 <= ex <= 400 -> -500 <= ey <= 400 ->
  exists mz ez,
    SFmul prec emax (S754_finite false mx ex) (S754_finite false my ey)
    = S754_finite false mz ez
    /\ 2 ^ 52 <= Z.pos mz < 2 ^ 53
    /\ ex + ey + 52 <= ez <= ex + ey + 54
    /\ (Rabs (SFval mz ez - SFval mx ex * SFval my ey) <= SFval mz ez / IZR (2 ^ 53))%R.
Proof.
  intros Hmx Hmy Hex Hey.
  unfold SFmul. cbn [xorb].
  set (N := Z.pos (mx * my)). set (E := ex + ey).
  assert (HN : N = Z.pos mx * Z.pos my) by (unfold N; lia).
  set (n := if N <? 2 ^ 105 then 52 else 53).
  assert (Hn : 52 <= n <= 53) by (unfold n; destruct (N <? 2 ^ 105); lia).
  assert (Hq : 2 ^ (52 + n) <= N / 1 < 2 ^ (53 + n)).
  { rewrite Z.div_1_r. unfold n. destruct (N <? 2 ^ 105) eqn:Hlt.
    - apply Z.ltb_lt in Hlt. simpl (52 + 52). simpl (53 + 52). split; [|exact Hlt].
      change (2 ^ 104) with (2 ^ 52 * 2 ^ 52). nia.
    - apply Z.ltb_ge in Hlt. simpl (52 + 53). simpl (53 + 53). split; [exact Hlt|].
      change (2 ^ 106) with (2 ^ 53 * 2 ^ 53). nia. }
  destruct (round_aux_real N 1 E n ltac:(lia) ltac:(lia) Hq) as (mz & ez & Hres & Hmz & Hez & Herr);
    try (unfold E; lia).
  rewrite Z.div_1_r, Z.mod_1_r in Hres. change (locate 0 1) with loc_Exact in Hres.
  exists mz, ez. split; [exact Hres|]. split; [exact Hmz|]. split; [unfold E in *; lia|].
  replace (SFval mx ex * SFval my ey)%R with (IZR N / IZR 1 * bpow E)%R; [exact Herr|].
  unfold SFval, E. rewrite HN, mult_IZR, bpow_add. field.
Qed.

Lemma Prim2SF_Z2F (z : Z) :
  0 <= z < 2 ^ 63 -> Prim2SF (Z2F z) = binary_normalize prec emax z 0 false.
Proof.
  intros Hz. unfold Z2F.
  replace (z <? 0) with false by (symmetry; apply Z.ltb_ge; lia).
  rewrite of_uint63_spec, of_Z_spec. rewrite Z.mod_small; [reflexivity|].
  change wB with (2 ^ 63). lia.
Qed.

(** [floor(F + 1/2)] for a positive double [F]. *)
Lemma Math_round_finite (x : float) (m : positive) (e : Z) :
  Prim2SF x = S754_finite false m e ->
  exists p, Math_round x = Some p
            /\ (IZR p - 1 / 2 <= SFval m e < IZR p + 1 / 2)%R.
Proof.
  intros Hx. unfold Math_round. rewrite Hx. unfold SFval.
  destruct (0 <=? e) eqn:He.
  - apply Z.leb_le in He. eexists. split; [reflexivity|].
    rewrite Z.shiftl_mul_pow2, mult_IZR, <- bpow_IZR by lia. lra.
  - apply Z.leb_gt in He. eexists. split; [reflexivity|].
    rewrite Z.shiftr_div_pow2, Z.shiftl_mul_pow2, Z.mul_1_l by lia.
    set (k := - e) in *. assert (Hk : 0 < k) by (unfold k; lia).
    assert (HW : 0 < 2 ^ k) by (apply Z.pow_pos_nonneg; lia).
    rewrite Z.pow_add_r, Z.pow_1_r by lia.
    set (W := 2 ^ k) in *. set (p := (2 * Z.pos m + W) / (W * 2)).
    pose proof (Z.div_mod (2 * Z.pos m + W) (W * 2) ltac:(lia)) as Hdm.
    pose proof (Z.mod_pos_bound (2 * Z.pos m + W) (W * 2) ltac:(lia)) as Hmod.
    fold p in Hdm.
    assert (H1 : W * 2 * p <= 2 * Z.pos m + W) by lia.
    assert (H2 : 2 * Z.pos m + W < W * 2 * p + W * 2) by lia.
    assert (H1r : (IZR W * 2 * IZR p <= 2 * IZR (Z.pos m) + IZR W)%R).
    { replace (IZR W * 2 * IZR p)%R with (IZR (W * 2 * p))
        by (rewrite !mult_IZR; reflexivity).
      replace (2 * IZR (Z.pos m) + IZR W)%R with (IZR (2 * Z.pos m + W))
        by (rewrite plus_IZR, mult_IZR; reflexivity).
      apply IZR_le; exact H1. }
    assert (H2r : (2 * IZR (Z.pos m) + IZR W < IZR W * 2 * IZR p + IZR W * 2)%R).
    { replace (IZR W * 2 * IZR p + IZR W * 2)%R with (IZR (W * 2 * p + W * 2))
        by (rewrite plus_IZR, !mult_IZR; reflexivity).
      replace (2 * IZR (Z.pos m) + IZR W)%R with (IZR (2 * Z.pos m + W))
        by (rewrite plus_IZR, mult_IZR; reflexivity).
      apply IZR_lt; exact H2. }
    assert (HWr : (0 < IZR W)%R) by (apply IZR_lt; exact HW).
    replace e with (- k) by (unfold k; lia).
    assert (Hb : bpow (- k) = (/ IZR W)%R).
    { pose proof (bpow_opp k) as Ho. rewrite (bpow_IZR k) in Ho by lia. fold W in Ho.
      apply Rmult_eq_reg_r with (IZR W); [rewrite Ho; field; lra | lra]. }
    rewrite Hb. set (v := (IZR (Z.pos m) * / IZR W)%R).
    assert (Hv : (v * IZR W = IZR (Z.pos m))%R) by (unfold v; field; lra).
    rewrite <- Hv in H1r, H2r. split.
    + apply Rmult_le_reg_r with (IZR W); [exact HWr | lra].
    + apply Rmult_lt_reg_r with (IZR W); [exact HWr | lra].
Qed.

(** The double [(h / t) * 100] is within 2^-45 of the exact percentage. *)
Lemma percent_double (h t : Z) :
  0 < h <= t -> t <= 2 ^ 44 ->
  exists my ey,
    Prim2SF (PrimFloat.mul (PrimFloat.div (Z2F h) (Z2F t)) (Z2F 100)) = S754_finite false my ey
    /\ (Rabs (SFval my ey - 100 * IZR h / IZR t) < / IZR (2 ^ 45))%R.
Proof.
  intros Hh Ht.
  rewrite FloatAxioms.mul_spec, FloatAxioms.div_spec, !Prim2SF_Z2F by lia.
  destruct (binary_normalize_exact h ltac:(lia)) as (mh & eh & -> & Hmh & Heh & Hvh).
  destruct (binary_normalize_exact t ltac:(lia)) as (mt & et & -> & Hmt & Het & Hvt).
  destruct (binary_normalize_exact 100 ltac:(lia)) as (mc & ec & -> & Hmc & Hec & Hvc).
  destruct (SFdiv_finite mh mt eh et Hmh Hmt ltac:(lia) ltac:(lia))
    as (mq & eq & Hq & Hmq & Heq & Herrq).
  unfold SF64mul, SF64div. rewrite Hq.
  destruct (SFmul_finite mq mc eq ec Hmq Hmc ltac:(lia) ltac:(lia))
    as (my & ey & Hy & Hmy & Hey & Herry).
  exists my, ey. split; [exact Hy|].
  rewrite Hvh, Hvt in Herrq. rewrite Hvc in Herry.
  set (Fq := SFval mq eq) in *. set (Fy := SFval my ey) in *.
  assert (HT : (0 < IZR t)%R) by (apply IZR_lt; lia).
  assert (HH : (0 < IZR h <= IZR t)%R) by (split; [apply IZR_lt | apply IZR_le]; lia).
  set (x := (IZR h / IZR t)%R) in *.
  assert (Hx : (0 < x <= 1)%R).
  { unfold x. split.
    - apply Rdiv_lt_0_compat; lra.
    - apply Rmult_le_reg_r with (IZR t); [lra|]. unfold Rdiv.
      rewrite Rmult_assoc, Rinv_l by lra. lra. }
  replace (100 * IZR h / IZR t)%R with (100 * x)%R by (unfold x; field; lra).
  change (2 ^ 53) with 9007199254740992 in *. change (2 ^ 45) with 35184372088832.
  apply Rabs_le_inv in Herrq. apply Rabs_le_inv in Herry.
  apply Rabs_def1; lra.
Qed.

Lemma percent_zero (t : Z) :
  0 < t < 2 ^ 53 ->
  Math_round (PrimFloat.mul (PrimFloat.div (Z2F 0) (Z2F t)) (Z2F 100)) = Some 0.
Proof.
  intros Ht. unfold Math_round.
  rewrite FloatAxioms.mul_spec, FloatAxioms.div_spec, !Prim2SF_Z2F by lia.
  destruct (binary_normalize_exact t ltac:(lia)) as (mt & et & -> & _).
  destruct (binary_normalize_exact 100 ltac:(lia)) as (mc & ec & -> & _).
  reflexivity.
Qed.

(** The percentage the code reports, against the exact one. *)
Lemma percent_round (h t : Z) :
  0 <= h <= t -> 0 < t <= 2 ^ 44 ->
  exists p,
    Math_round (PrimFloat.mul (PrimFloat.div (Z2F h) (Z2F t)) (Z2F 100)) = Some p
    /\ Z.abs (200 * h - 2 * t * p) <= t
    /\ ((200 * h + t) mod (2 * t) <> 0 -> p = Spec.round_half_up (100 * h) t).
Proof.
  intros Hh Ht.
  destruct (Z.eq_dec h 0) as [->|Hh0].
  { exists 0. split; [apply percent_zero; lia|]. split; [lia|].
    intros _. unfold Spec.round_half_up. symmetry. apply Z.div_small. lia. }
  destruct (percent_double h t ltac:(lia) ltac:(lia)) as (my & ey & Hy & Herr).
  destruct (Math_round_finite _ my ey Hy) as (p & Hp & Hpr).
  exists p. split; [exact Hp|].
  set (Fy := SFval my ey) in *.
  set (p0 := Spec.round_half_up (100 * h) t).
  pose proof (Z.div_mod (200 * h + t) (2 * t) ltac:(lia)) as Hdm.
  pose proof (Z.mod_pos_bound (200 * h + t) (2 * t) ltac:(lia)) as Hmod.
  assert (Hp0 : (200 * h + t) / (2 * t) = p0).
  { unfold p0, Spec.round_half_up. f_equal. lia. }
  rewrite Hp0 in Hdm. set (r0 := (200 * h + t) mod (2 * t)) in *.
  (* real counterparts *)
  set (T := IZR t) in *. set (H := IZR h) in *. set (P0 := IZR p0).
  assert (HT : (0 < T)%R) by (apply IZR_lt; lia).
  assert (HT44 : (T <= IZR (2 ^ 44))%R) by (apply IZR_le; lia).
  change (2 ^ 44) with 17592186044416 in HT44.
  change (2 ^ 45) with 35184372088832 in Herr.
  apply Rabs_def2 in Herr. destruct Herr as [Herr1 Herr2].
  set (X := (100 * H / T)%R) in *.
  assert (HXT : (X * T = 100 * H)%R) by (unfold X; field; lra).
  set (g := (/ (2 * T))%R).
  assert (HgT : (g * T = 1 / 2)%R) by (unfold g; field; lra).
  assert (Hg : (/ 35184372088832 <= g)%R).
  { apply Rmult_le_reg_r with T; [exact HT|]. rewrite HgT. lra. }
  assert (Hlow : (2 * P0 * T <= 200 * H + T)%R).
  { unfold P0, T, H. rewrite <- !mult_IZR, <- plus_IZR. apply IZR_le. lia. }
  assert (Hup : (200 * H + T + 1 <= 2 * P0 * T + 2 * T)%R).
  { unfold P0, T, H. rewrite <- !mult_IZR, <- !plus_IZR. apply IZR_le. lia. }
  assert (HXlow : (P0 - 1 / 2 <= X)%R).
  { apply Rmult_le_reg_r with T; [exact HT|].
    replace ((P0 - 1 / 2) * T)%R with (P0 * T - T / 2)%R by field.
    rewrite HXT. lra. }
  assert (HXup : (X <= P0 + 1 / 2 - g)%R).
  { apply Rmult_le_reg_r with T; [exact HT|].
    replace ((P0 + 1 / 2 - g) * T)%R with (P0 * T + T / 2 - g * T)%R by field.
    rewrite HXT, HgT. lra. }
  assert (Hle : p <= p0).
  { apply Z.lt_succ_r, lt_IZR. rewrite succ_IZR. fold P0. lra. }
  assert (Hge : p0 - 1 <= p).
  { apply Z.lt_succ_r, lt_IZR. rewrite succ_IZR, minus_IZR. fold P0. lra. }
  assert (Hnotie : r0 <> 0 -> p = p0).
  { intros Hr0.
    assert (Hlow' : (2 * P0 * T + 1 <= 200 * H + T)%R).
    { unfold P0, T, H. rewrite <- !mult_IZR, <- !plus_IZR. apply IZR_le. lia. }
    assert (HXlow' : (P0 - 1 / 2 + g <= X)%R).
    { apply Rmult_le_reg_r with T; [exact HT|].
      replace ((P0 - 1 / 2 + g) * T)%R with (P0 * T - T / 2 + g * T)%R by field.
      rewrite HXT, HgT. lra. }
    assert (p0 <= p); [|lia].
    apply Z.lt_succ_r, lt_IZR. rewrite succ_IZR. fold P0. lra. }
  split; [|exact Hnotie].
  destruct (Z.eq_dec r0 0) as [Hr0|Hr0].
  - rewrite Hr0 in Hdm. assert (p = p0 \/ p = p0 - 1) as [-> | ->] by lia; lia.
  - rewrite (Hnotie Hr0). lia.
Qed.

End Binary64Facts.

(** ** The percentage *)

Section Percent.
Import Js JsData Platform Dashboard.

Lemma round_half_up_bounds (num den : Z) :
  0 < den →
  - den ≤ 2 * num - 2 * den * Spec.round_half_up num den < den.
Proof.
  intros Hden. unfold Spec.round_half_up.
  pose proof (Z.div_mod (2 * num + den) (2 * den) ltac:(lia)) as Hdm.
  pose proof (Z.mod_pos_bound (2 * num + den) (2 * den) ltac:(lia)) as Hm.
  set (q := (2 * num + den) / (2 * den)) in *.
  set (r := (2 * num + den) mod (2 * den)) in *.
  clearbody q r. nia.
Qed.

(** The percentage of [h] hours out of [t], for every total up to 2^44:
    an integer nearest to the exact percentage, the exact percentage
    rounded half up when that is not a tie. *)
Lemma percent_nearest (h t : Z) :
  0 ≤ h ≤ t → 0 < t ≤ 2 ^ 44 →
  ∃ p, percent h t = JsInt p
       ∧ Z.abs (200 * h - 2 * t * p) ≤ t
       ∧ ((200 * h + t) mod (2 * t) ≠ 0 → p = Spec.round_half_up (100 * h) t).
Proof.
  intros Hh Ht. destruct (percent_round h t Hh Ht) as (p & Hp & Hnear & Hhalf).
  exists p. split; [|split; assumption].
  unfold percent. rewrite Hp.
  destruct (t =? 0) eqn:Hz; [apply Z.eqb_eq in Hz; lia | reflexivity].
Qed.

End Percent.

Section MonthlyTheorem.
Import Js JsData Platform Dashboard.

(** [Math.round] on a double with a fraction part: the floor of the
    value plus one half. *)
Lemma Math_round_fraction (x : float) (s : bool) (m : positive) (e : Z) :
  Prim2SF x = S754_finite s m e → e < 0 →
  Math_round x
  = Some ((2 * (if s then Z.neg m else Z.pos m) + 2 ^ (- e)) / 2 ^ (- e + 1)).
Proof.
  intros Hx He. unfold Math_round. rewrite Hx.
  destruct (0 <=? e) eqn:Hle; [apply Z.leb_le in Hle; lia|].
  rewrite Z.shiftr_div_pow2, Z.shiftl_mul_pow2 by lia.
  rewrite Z.mul_1_l. reflexivity.
Qed.

Lemma month_rows_of_row `{JsDate} (db : list obj) (mk : JsVal) :
  let row := Spec.month_row_of db mk in
  let rows := Spec.month_rows (month row) db in
  month_total row = Spec.sum_hours rows
  ∧ map (λ s, (share_name s, hours s)) (month_projects row) ≡ₚ Spec.project_hours_of rows
  ∧ StronglySorted (λ a b, hours b ≤ hours a) (month_projects row)
  ∧ Forall (λ s, pct s = percent (hours s) (month_total row)) (month_projects row).
Proof.
  cbn [Spec.month_row_of month month_total month_projects].
  split; [reflexivity|]. split; [|split].
  - rewrite sort_Permutation, <- list_fmap_compose.
    rewrite (map_ext _ id) by (intros []; reflexivity). rewrite map_id. reflexivity.
  - apply Sorted_StronglySorted; [intros a b c Hab Hbc; lia|].
    apply sort_Sorted; intros a b Hc; lia.
  - rewrite sort_Permutation. apply Forall_fmap, Forall_forall.
    intros nh _. reflexivity.
Qed.

(** C8, amended.  [monthlyProportion] reports one row for each month
    key of the rows, ascending by key; the key is the year and month of
    [Week_Start] as the host reads that date, or [Year] followed by
    ["-01"] when [Week_Start] is missing or not a date.  A month row
    holds the total hours of the month and, for each project of the
    month, its hours and its percentage, projects descending by hours.
    The percentage is 0 when the month total is 0 and otherwise
    [Math.round] of the double [(hours / total) * 100]: for every
    month total up to 2^44 hours and every share of it, it is an
    integer nearest to the exact percentage, and the exact percentage
    rounded half up whenever that is not a tie (30 and 10 of 40 give 75
    and 25, 1 of 8 gives 13), while at a tie the double may fall below
    the half (23 of 40 gives 57). *)
Theorem monthlyProportion_spec `{JsDate} (db : list obj) :
  monthlyProportion db
  = map (Spec.month_row_of db)
        (sort (λ a b, string_cmp (ToString a) (ToString b))
              (Spec.first_seen (map Spec.month_key db)))
  ∧ map month (monthlyProportion db) ≡ₚ Spec.first_seen (map Spec.month_key db)
  ∧ StronglySorted (λ a b, String.le (ToString (month a)) (ToString (month b)))
                   (monthlyProportion db)
  ∧ Forall (λ row,
              let rows := Spec.month_rows (month row) db in
              month_total row = Spec.sum_hours rows
              ∧ map (λ s, (share_name s, hours s)) (month_projects row)
                ≡ₚ Spec.project_hours_of rows
              ∧ StronglySorted (λ a b, hours b ≤ hours a) (month_projects row)
              ∧ Forall (λ s, pct s = percent (hours s) (month_total row))
                       (month_projects row))
           (monthlyProportion db)
  ∧ (∀ r, Spec.month_key r
          = JsStr match week_start_date r with
                  | Some (y, m) =>
                      ToString (JsInt y) +:+ "-" +:+ padStart0 2 (ToString (JsInt (m + 1)))
                  | None => ToString (or_else (get r "Year") (JsStr "")) +:+ "-01"
                  end)
  ∧ (∀ h, percent h 0 = JsInt 0)
  ∧ (∀ h t, t ≠ 0 →
       percent h t
       = match Math_round (PrimFloat.mul (PrimFloat.div (Z2F h) (Z2F t)) (Z2F 100)) with
         | Some p => JsInt p
         | None => JsNaN
         end)
  ∧ (∀ h t, 0 ≤ h ≤ t → 0 < t ≤ 2 ^ 44 →
       ∃ p, percent h t = JsInt p
            ∧ Z.abs (200 * h - 2 * t * p) ≤ t
            ∧ ((200 * h + t) mod (2 * t) ≠ 0 → p = Spec.round_half_up (100 * h) t))
  ∧ percent 30 40 = JsInt 75 ∧ percent 10 40 = JsInt 25
  ∧ percent 1 8 = JsInt 13 ∧ percent 23 40 = JsInt 57.
Proof.
  split; [apply monthlyProportion_rows|].
  split; [|split; [|split; [|split; [|split; [|split; [|split]]]]]].
  - rewrite monthlyProportion_rows, <- list_fmap_compose.
    rewrite (map_ext _ id) by reflexivity. rewrite map_id. apply sort_Permutation.
  - rewrite monthlyProportion_rows.
    apply StronglySorted_fmap
      with (R1 := λ a b : JsVal, String.le (ToString a) (ToString b)).
    + intros a b Hab. exact Hab.
    + apply Sorted_StronglySorted.
      * intros a b c Hab Hbc. exact (transitivity Hab Hbc).
      * apply sort_Sorted; intros a b Hc;
          [apply string_cmp_le | apply string_cmp_gt]; exact Hc.
  - rewrite monthlyProportion_rows. apply Forall_fmap, Forall_forall.
    intros mk _. apply month_rows_of_row.
  - intros r. unfold Spec.month_key, toMonthKey.
    destruct (week_start_date r) as [[y m]|]; reflexivity.
  - intros h. reflexivity.
  - intros h t Ht. unfold percent.
    destruct (t =? 0) eqn:Hz; [apply Z.eqb_eq in Hz; contradiction | reflexivity].
  - apply percent_nearest.
  - repeat split; vm_compute; reflexivity.
Qed.

End MonthlyTheorem.

(** ** The weekly series by person *)

Section Weekly.
Import Js JsData Platform Dashboard.

(** C4 fails on the code.  One row of 8 hours for Alice on the project,
    in the week starting Monday 2025-08-04: the series is labelled with
    that week and holds 0, and Alice's total is 0, for every collation
    and every host reading the date in year 2025.  The label is the
    date ["2025-08-04"], her hours are stored under the key
    ["2025-W32"], and the lookup asks whether the label contains the
    week number ["32"]. *)
Theorem weeklyByPersonForProject_loses_hours `{JsDate, JsLocale} :
  new_Date (JsStr "2025-08-04") = Some (2025, 7) →
  let db := [Sample.db_row "Alice Silva" "Google – Brand Film" "2025-08-04" 32 1 8] in
  weeklyByPersonForProject db (JsStr "Google – Brand Film")
  = Some [mkPersonSeries (JsStr "Alice Silva") [0] 0 [JsStr "2025-08-04"]]
  ∧ Spec.sum_hours db = 8.
Proof.
  intros Hdate db. split; [|reflexivity].
  assert (Hkey : toWeekKey (Sample.db_row "Alice Silva" "Google – Brand Film" "2025-08-04" 32 1 8)
                 = "2025-W32").
  { unfold toWeekKey, week_start_date.
    change (get (Sample.db_row _ _ _ _ _ _) "Week_Start") with (JsStr "2025-08-04").
    cbn [truthy]. rewrite Hdate. vm_compute. reflexivity. }
  unfold weeklyByPersonForProject, db. cbn [fold_left truthy negb].
  unfold weekly_step. rewrite Hkey. vm_compute. reflexivity.
Qed.

Lemma weeklyByPersonForProject_loses_hours_witness :
  RefHost.utc_date (JsStr "2025-08-04") = Some (2025, 7)
  ∧ let db := [Sample.db_row "Alice Silva" "Google – Brand Film" "2025-08-04" 32 1 8] in
    @weeklyByPersonForProject RefHost.utc_date RefHost.code_unit_locale db (JsStr "Google – Brand Film")
    = Some [mkPersonSeries (JsStr "Alice Silva") [0] 0 [JsStr "2025-08-04"]]
    ∧ Spec.sum_hours db = 8.
Proof.
  split; [reflexivity|].
  apply (@weeklyByPersonForProject_loses_hours RefHost.utc_date RefHost.code_unit_locale).
  reflexivity.
Defined.

End Weekly.

(** ** Evaluations on the reference host *)

Section Reference.
Import Js JsData Platform Timesheet Dashboard RefHost.

(** C8, as stated, fails: in a month of 40 hours, 23 of them on one
    project, the exact percentage 57.5 rounds half up to 58, and
    [monthlyProportion] reports 57. *)
Lemma monthlyProportion_tie_below_half :
  let db := [ Sample.db_row "Alice Silva" "Google – Brand Film" "2025-08-04" 32 1 23;
              Sample.db_row "Alice Silva" "Stone – Investor Day" "2025-08-04" 32 2 17 ] in
  ∃ share rest,
    monthlyProportion db = [mkMonthRow (JsStr "2025-08") 40 (share :: rest)]
    ∧ hours share = 23
    ∧ pct share = JsInt 57
    ∧ Spec.round_half_up (hours share * 100) 40 = 58
    ∧ pct share ≠ JsInt (Spec.round_half_up (hours share * 100) 40).
Proof.
  eexists. eexists. split; [vm_compute; reflexivity|].
  split; [reflexivity|]. split; [reflexivity|]. split; [reflexivity|].
  vm_compute. discriminate.
Qed.

(** The example of the specification for [monthlyProportion]. *)
Example monthlyProportion_30_10 :
  monthlyProportion
    [ Sample.db_row "Alice Silva" "Google – Brand Film" "2025-08-04" 32 1 30;
      Sample.db_row "Alice Silva" "Stone – Investor Day" "2025-08-04" 32 2 10 ]
  = [ mkMonthRow (JsStr "2025-08") 40
        [ mkProjectShare (JsStr "Google – Brand Film") 30 (JsInt 75);
          mkProjectShare (JsStr "Stone – Investor Day") 10 (JsInt 25) ] ].
Proof. vm_compute. reflexivity. Qed.

(** The example of the specification for [groupTotals], and a row with
    [Total] 0. *)
Example groupTotals_by_person :
  groupTotals
    [ Some (list_to_map [("Person", JsStr "A"); ("Total", JsInt 8)]);
      Some (list_to_map [("Person", JsStr "A"); ("Total", JsInt 2)]);
      Some (list_to_map [("Person", JsStr "B"); ("Total", JsInt 5)]);
      Some (list_to_map [("Person", JsStr "C"); ("Total", JsInt 0)]);
      Some (list_to_map [("Total", JsInt 3)]) ] "Person"
  = [ mkBucket (JsStr "A") 10 1 0; mkBucket (JsStr "B") 5 1 0;
      mkBucket (JsStr "C") 0 1 0; mkBucket (JsStr "—") 3 0 0 ].
Proof. vm_compute. reflexivity. Qed.

(** The self-tests of [TimesheetApp.jsx]. *)
Example sumWeek_selftests :
  sumWeek (Some (Scalar <$> list_to_map [("Mon", JsInt 8); ("Tue", JsInt 8); ("Wed", JsInt 8);
                                         ("Thu", JsInt 8); ("Fri", JsInt 8)])) = Some 40
  ∧ sumWeek (Some (Scalar <$> list_to_map [("Mon", JsStr ""); ("Tue", JsInt 2); ("Wed", JsInt 0);
                                           ("Thu", JsInt 3); ("Fri", JsInt 1)])) = Some 6.
Proof. split; vm_compute; reflexivity. Qed.

(** A week 20 is found in every label of 2025: with 5 hours in week 20
    and 8 hours in week 32, the series reads 5 and 5. *)
Example weeklyByPersonForProject_week_20 :
  weeklyByPersonForProject
    [ Sample.db_row "Alice Silva" "Google – Brand Film" "2025-05-12" 20 1 5;
      Sample.db_row "Alice Silva" "Google – Brand Film" "2025-08-04" 32 1 8 ]
    (JsStr "Google – Brand Film")
  = Some [ mkPersonSeries (JsStr "Alice Silva") [5; 5] 10
             [JsStr "2025-05-12"; JsStr "2025-08-04"] ].
Proof. vm_compute. reflexivity. Qed.

(** [Number] on strings: exponent and fraction forms that denote
    integers, radix prefixes, white space, texts that are not numeric,
    and the literals that [integral] leaves out. *)
Example StringToNumber_literals :
  map StringToNumber
      ["1e1"; "8.0"; " 12 "; "0x1F"; "0b101"; "-7"; "+7"; ".5e1"; "120e-1"; ""; "  "]
  = [Some 10; Some 8; Some 12; Some 31; Some 5; Some (-7); Some 7; Some 5; Some 12;
     Some 0; Some 0]
  ∧ map StringToNumber ["abc"; "1 2"; "12px"; "0x"; "-0x10"; "1e"; "."; "1_000"]
    = [None; None; None; None; None; None; None; None]
  ∧ map (λ s, integral (JsStr s)) ["8"; "n/a"; "8.5"; "Infinity"; "1e-1"]
    = [true; true; false; false; false].
Proof. repeat split; vm_compute; reflexivity. Qed.

(** [padStart] counts UTF-16 code units: one for a two-byte letter. *)
Example padStart0_units :
  padStart0 2 "5" = "05" ∧ padStart0 2 "12" = "12" ∧ padStart0 2 "é" = "0é"
  ∧ padStart0 4 "" = "0000".
Proof. repeat split; vm_compute; reflexivity. Qed.

End Reference.

(** * Further properties of the code *)

(** ** Actions on the staging area *)

Section StagingActions.
Import Js JsData Timesheet.

(** X1.  The value [updateEntry] writes into a day cell for an input
    that is not empty is the value of the exported [allowedAfterCap] on
    the hours of the other rows, the hours of the other days of the row
    and the input read by [parseInt] and clamped to [[0, 24]]; the cap
    notice is raised exactly when these three sum to more than 40. *)
Theorem updateEntry_stores_allowedAfterCap (prev : list obj) (id : JsVal)
    (field value : string) (e : obj) :
  field ∈ DAYS → value ≠ "" → strict_eq (get e "id") id = true →
  let numeric := Z.max 0 (Z.min 24 (default 0 (parseInt value))) in
  let otherRowsTotal :=
    totalWeekHours (List.filter (λ r, negb (strict_eq (get r "id") id)) prev) in
  let thisOtherDays := entryTotal e - number_or_0 (get e field) in
  updateEntry_row prev id field value e
  = (<[field := JsInt (allowedAfterCap otherRowsTotal thisOtherDays numeric)]> e,
     40 <? otherRowsTotal + thisOtherDays + numeric).
Proof.
  intros Hf Hv He numeric others thisOther.
  unfold updateEntry_row. rewrite He. cbn [negb].
  rewrite (bool_decide_eq_true_2 _ Hf), (bool_decide_eq_false_2 _ Hv).
  cbv zeta.
  pose proof (entryTotal_split field e Hf) as Hsplit.
  set (rest := fold_left (λ s d, s + number_or_0 (get e d))
                 (List.filter (λ d, negb (bool_decide (d = field))) DAYS) 0) in *.
  assert (Hrest : thisOther = rest) by (unfold thisOther; lia).
  change (fold_left (λ acc r, acc + fold_left (λ s d, s + number_or_0 (get r d)) DAYS 0)
            (List.filter (λ r, negb (strict_eq (get r "id") id)) prev) 0) with others.
  fold numeric. rewrite Hrest. unfold allowedAfterCap.
  destruct (40 <? others + rest + numeric) eqn:Hcap.
  - apply Z.ltb_lt in Hcap. do 3 f_equal. unfold numeric in *. lia.
  - apply Z.ltb_ge in Hcap. do 3 f_equal. unfold numeric in *. lia.
Qed.

Lemma totalWeekHours_map (f : obj → obj) (es : list obj) :
  (∀ e, e ∈ es → entryTotal (f e) = entryTotal e) →
  totalWeekHours (map f es) = totalWeekHours es.
Proof.
  induction es as [|e es IH]; intros Hf; [reflexivity|].
  cbn [map]. rewrite !totalWeekHours_cons, Hf by left.
  rewrite IH; [reflexivity|]. intros e' He'. apply Hf. right. exact He'.
Qed.

Lemma updateEntry_row_text (prev : list obj) (id : JsVal) (field value : string) (e : obj) :
  field ∉ DAYS →
  updateEntry_row prev id field value e
  = (if strict_eq (get e "id") id then <[field := JsStr value]> e else e, false).
Proof.
  intros Hf. unfold updateEntry_row.
  destruct (strict_eq (get e "id") id); [|reflexivity]. cbn [negb].
  rewrite (bool_decide_eq_false_2 _ Hf). reflexivity.
Qed.

(** X2.  [updateEntry] on a field that is not a day (project, business
    unit, notes) stores the text in the rows with the given id, leaves
    every other row as it is, and changes neither the weekly total nor
    the notice. *)
Theorem updateEntry_text_field (id : JsVal) (field value : string) (st : State) :
  field ∉ DAYS →
  let st' := updateEntry id field value st in
  entries st'
  = map (λ e, if strict_eq (get e "id") id then <[field := JsStr value]> e else e)
        (entries st)
  ∧ totalWeekHours (entries st') = totalWeekHours (entries st)
  ∧ toast st' = toast st.
Proof.
  intros Hf st'. subst st'.
  assert (Hrows : map (updateEntry_row (entries st) id field value) (entries st)
                  = map (λ e, (if strict_eq (get e "id") id
                               then <[field := JsStr value]> e else e, false))
                        (entries st)).
  { apply map_ext. intros e. apply updateEntry_row_text. exact Hf. }
  assert (Hent : entries (updateEntry id field value st)
                 = map (λ e, if strict_eq (get e "id") id
                             then <[field := JsStr value]> e else e) (entries st)).
  { rewrite entries_updateEntry. apply map_ext. intros e.
    rewrite updateEntry_row_text by exact Hf. reflexivity. }
  split; [exact Hent|]. split.
  - rewrite Hent. apply totalWeekHours_map. intros e _.
    destruct (strict_eq (get e "id") id); [|reflexivity].
    apply entryTotal_insert_other. exact Hf.
  - unfold updateEntry. rewrite Hrows.
    assert (existsb snd (map (λ e : obj, (if strict_eq (get e "id") id
                                          then <[field := JsStr value]> e else e, false))
                             (entries st)) = false) as ->; [|reflexivity].
    clear Hrows Hent. generalize (entries st).
    intros es. induction es as [|e es IH]; [reflexivity|]. exact IH.
Qed.

Lemma updateEntry_text_field_witness :
  let st := Sample.state "Alice Silva"
              [ Sample.entry "a" "Google – Brand Film"
                  (JsInt 8) (JsInt 8) (JsInt 8) (JsInt 8) (JsInt 8) ] in
  let st' := updateEntry (JsStr "a") "notes" "filmagem" st in
  entries st'
  = map (λ e, if strict_eq (get e "id") (JsStr "a")
              then <["notes" := JsStr "filmagem"]> e else e) (entries st)
  ∧ totalWeekHours (entries st') = totalWeekHours (entries st)
  ∧ toast st' = toast st.
Proof.
  apply (updateEntry_text_field (JsStr "a") "notes" "filmagem").
  rewrite list_elem_of_In. simpl. intuition discriminate.
Defined.

Lemma updateEntry_stores_allowedAfterCap_witness :
  let prev := [ Sample.entry "a" "Google – Brand Film"
                  (JsInt 8) (JsInt 8) (JsInt 8) (JsInt 8) (JsStr "");
                Sample.entry "b" "Stone – Investor Day"
                  (JsInt 2) (JsStr "") (JsStr "") (JsStr "") (JsStr "") ] in
  let e := Sample.entry "b" "Stone – Investor Day"
             (JsInt 2) (JsStr "") (JsStr "") (JsStr "") (JsStr "") in
  updateEntry_row prev (JsStr "b") "Fri" "30" e
  = (<["Fri" := JsInt (allowedAfterCap 32 2 24)]> e, true).
Proof.
  refine (eq_trans (updateEntry_stores_allowedAfterCap _ (JsStr "b") "Fri" "30" _ _ _ _) _).
  - rewrite list_elem_of_In. simpl. tauto.
  - discriminate.
  - reflexivity.
  - vm_compute. reflexivity.
Defined.

(** *** Totals by day *)

Lemma dayTotals_row (T : gmap string Z) (e : obj) (d : string) (t : Z) :
  d ∈ DAYS → T !! d = Some t →
  dayTotals_add T e !! d = Some (t + number_or_0 (get e d)).
Proof.
  intros Hd Ht. unfold dayTotals_add, DAYS in *. cbn [fold_left].
  repeat (apply elem_of_cons in Hd as [-> | Hd]);
    [| | | | |inversion Hd];
    repeat first [ rewrite lookup_insert_eq | rewrite lookup_insert_ne by discriminate ];
    rewrite Ht; reflexivity.
Qed.

Lemma dayTotals_from (T : gmap string Z) (es : list obj) (d : string) (t : Z) :
  d ∈ DAYS → T !! d = Some t →
  fold_left dayTotals_add es T !! d
  = Some (t + fold_left (λ s e, s + number_or_0 (get e d)) es 0).
Proof.
  intros Hd. revert T t. induction es as [|e es IH]; intros T t Ht.
  - cbn. rewrite Ht. f_equal. lia.
  - cbn [fold_left]. rewrite (IH _ _ (dayTotals_row T e d t Hd Ht)).
    rewrite (fold_left_add_acc (λ e, number_or_0 (get e d)) es (0 + _)). f_equal. lia.
Qed.

Lemma totalWeekHours_columns (es : list obj) :
  let col d := fold_left (λ s e, s + number_or_0 (get e d)) es 0 in
  col "Mon" + col "Tue" + col "Wed" + col "Thu" + col "Fri" = totalWeekHours es.
Proof.
  cbv zeta. induction es as [|e es IH]; [reflexivity|].
  rewrite totalWeekHours_cons, entryTotal_days, <- IH. cbn [fold_left].
  rewrite !(fold_left_add_acc _ es (0 + _)). lia.
Qed.

(** X3.  [dayTotals] holds for each day the sum of that day over the
    rows, and the five day totals add up to [totalWeekHours]. *)
Theorem dayTotals_sum (es : list obj) :
  (∀ d, d ∈ DAYS →
     dayTotals es !! d = Some (fold_left (λ s e, s + number_or_0 (get e d)) es 0))
  ∧ fold_left (λ s d, s + default 0 (dayTotals es !! d)) DAYS 0 = totalWeekHours es.
Proof.
  assert (Hcol : ∀ d, d ∈ DAYS →
            dayTotals es !! d = Some (fold_left (λ s e, s + number_or_0 (get e d)) es 0)).
  { intros d Hd. unfold dayTotals.
    rewrite (dayTotals_from _ es d 0 Hd); [f_equal; lia|].
    unfold DAYS in Hd.
    repeat (apply elem_of_cons in Hd as [-> | Hd]); [| | | | |inversion Hd]; reflexivity. }
  split; [exact Hcol|].
  unfold DAYS at 1. cbn [fold_left].
  rewrite !Hcol by (rewrite list_elem_of_In; simpl; tauto). cbn [default]. unfold id.
  rewrite <- (totalWeekHours_columns es). lia.
Qed.

(** *** Rows added and removed *)

Lemma strict_eq_eq (a b : JsVal) : strict_eq a b = true → a = b.
Proof.
  unfold strict_eq. destruct a; try discriminate;
    intros H; apply bool_decide_eq_true_1 in H; exact H.
Qed.

Lemma removeRow_entries (ok : bool) (id : JsVal) (st : State) :
  entries (removeRow ok id st)
  = if bool_decide (length (entries st) = 1%nat) then entries st
    else if negb ok then entries st
    else List.filter (λ e, negb (strict_eq (get e "id") id)) (entries st).
Proof. reflexivity. Qed.

(** X4.  [removeRow] never empties the staging area: with distinct
    row ids it removes at most one row, and only when the user confirms
    and more than one row is left. *)
Theorem removeRow_keeps_a_row (ok : bool) (id : JsVal) (st : State) :
  NoDup (map (λ e, get e "id") (entries st)) → entries st ≠ [] →
  let st' := removeRow ok id st in
  entries st' ≠ []
  ∧ (entries st' = entries st
     ∨ (ok = true ∧ (1 < length (entries st))%nat
        ∧ entries st' = List.filter (λ e, negb (strict_eq (get e "id") id)) (entries st)))
  ∧ (length (entries st) - 1 ≤ length (entries st'))%nat.
Proof.
  intros Hnd Hne st'. subst st'. rewrite removeRow_entries.
  destruct (bool_decide (length (entries st) = 1%nat)) eqn:Hone.
  { split; [exact Hne|]. split; [left; reflexivity | lia]. }
  apply bool_decide_eq_false_1 in Hone.
  destruct ok; cbn [negb]; [|split; [exact Hne | split; [left; reflexivity | lia]]].
  assert (Hlen : (1 < length (entries st))%nat).
  { destruct (entries st) as [|e [|e' es]]; [contradiction | contradiction | simpl; lia]. }
  destruct (unique_row_split id (entries st) Hnd)
    as [Hall | (l1 & e0 & l2 & Hprev & H0 & H1 & H2)].
  - rewrite (filter_others_id id _ Hall).
    split; [exact Hne|]. split; [left; reflexivity | lia].
  - rewrite (others_of_split id _ _ _ _ Hprev H0 H1 H2).
    rewrite Hprev, length_app in Hlen. cbn [length] in Hlen.
    split; [|split].
    + intros Hnil. apply (f_equal length) in Hnil. rewrite length_app in Hnil.
      simpl in Hnil. lia.
    + right. split; [reflexivity|]. split; [rewrite Hprev, length_app; simpl; lia|].
      reflexivity.
    + rewrite Hprev, !length_app. simpl. lia.
Qed.

Lemma removeRow_keeps_a_row_witness :
  let st := Sample.state "Alice Silva"
              [ Sample.entry "a" "Google – Brand Film"
                  (JsInt 8) (JsStr "") (JsStr "") (JsStr "") (JsStr "") ] in
  entries (removeRow true (JsStr "a") st) ≠ [].
Proof.
  refine (proj1 (removeRow_keeps_a_row true (JsStr "a") (Sample.state "Alice Silva" _) _ _)).
  - apply (bool_decide_unpack _). vm_compute. exact I.
  - discriminate.
Defined.


(** *** The weekly cap as an invariant of the staging area *)

Lemma entryTotal_nonneg (e : obj) :
  (∀ d, d ∈ DAYS → 0 ≤ number_or_0 (get e d)) → 0 ≤ entryTotal e.
Proof.
  intros H. rewrite entryTotal_days.
  pose proof (H "Mon" ltac:(rewrite list_elem_of_In; simpl; tauto)).
  pose proof (H "Tue" ltac:(rewrite list_elem_of_In; simpl; tauto)).
  pose proof (H "Wed" ltac:(rewrite list_elem_of_In; simpl; tauto)).
  pose proof (H "Thu" ltac:(rewrite list_elem_of_In; simpl; tauto)).
  pose proof (H "Fri" ltac:(rewrite list_elem_of_In; simpl; tauto)).
  lia.
Qed.

Lemma capped_tail (e : obj) (es : list obj) :
  Spec.capped (e :: es) → Spec.capped es ∧ 0 ≤ entryTotal e.
Proof.
  intros (Hnd & Hcells & Hsum). cbn [map] in Hnd. apply NoDup_cons in Hnd as [_ Hnd].
  assert (He : 0 ≤ entryTotal e).
  { apply entryTotal_nonneg. intros d Hd. apply Hcells; [left | exact Hd]. }
  rewrite totalWeekHours_cons in Hsum.
  split; [|exact He]. split; [exact Hnd|]. split; [|lia].
  intros e' d He' Hd. apply Hcells; [right; exact He' | exact Hd].
Qed.

Lemma capped_filter (p : obj → bool) (es : list obj) :
  Spec.capped es → Spec.capped (List.filter p es).
Proof.
  induction es as [|e es IH]; intros Hc; [exact Hc|].
  destruct (capped_tail e es Hc) as [Htail He].
  specialize (IH Htail). cbn [List.filter]. destruct (p e); [|exact IH].
  destruct Hc as (Hnd & Hcells & Hsum). destruct IH as (Hnd' & Hcells' & Hsum').
  destruct Htail as (_ & _ & Hsum_tail).
  split; [|split].
  - cbn [map] in *. apply NoDup_cons in Hnd as [Hnotin _].
    apply NoDup_cons. split; [|exact Hnd'].
    intros Hin. apply Hnotin. apply list_elem_of_fmap in Hin as (e' & Heq & Hin).
    apply list_elem_of_fmap. exists e'. split; [exact Heq|].
    apply list_elem_of_In, filter_In in Hin. apply list_elem_of_In, Hin.
  - intros e' d He' Hd. apply elem_of_cons in He' as [-> | He'].
    + apply Hcells; [left | exact Hd].
    + apply Hcells'; assumption.
  - rewrite totalWeekHours_cons in *.
    assert (totalWeekHours (List.filter p es) ≤ totalWeekHours es); [|lia].
    clear - Hcells. induction es as [|e' es IH]; [reflexivity|].
    cbn [List.filter].
    assert (He' : 0 ≤ entryTotal e').
    { apply entryTotal_nonneg. intros d Hd. apply Hcells; [right; left | exact Hd]. }
    assert (IH' : totalWeekHours (List.filter p es) ≤ totalWeekHours es).
    { apply IH. intros e'' d He'' Hd. apply elem_of_cons in He'' as [-> | He''].
      - apply Hcells; [left | exact Hd].
      - apply Hcells; [right; right; exact He'' | exact Hd]. }
    destruct (p e'); rewrite ?totalWeekHours_cons; lia.
Qed.

Lemma updateEntry_capped (id : JsVal) (field value : string) (st : State) :
  field ∈ Spec.EDITABLE →
  Spec.capped (entries st) → Spec.capped (entries (updateEntry id field value st)).
Proof.
  intros Hf (Hnd & Hcells & Hsum).
  assert (Hid : "id" ≠ field).
  { intros <-. rewrite list_elem_of_In in Hf. simpl in Hf. intuition discriminate. }
  assert (Hids : map (λ e, get e "id") (entries (updateEntry id field value st))
                 = map (λ e, get e "id") (entries st)).
  { rewrite entries_updateEntry, <- list_fmap_compose. apply map_ext. intros e.
    unfold compose, get. rewrite updateEntry_row_frame by assumption. reflexivity. }
  destruct (decide (field ∈ DAYS)) as [Hday | Hday].
  - split; [rewrite Hids; exact Hnd|]. split.
    + intros e' d Hin Hd. rewrite entries_updateEntry in Hin.
      apply list_elem_of_fmap in Hin as (e & -> & Hin).
      destruct (decide (d = field)) as [->|Hne].
      * apply updateEntry_row_nonneg; [assumption|]. apply Hcells; assumption.
      * unfold get. rewrite updateEntry_row_frame by assumption.
        apply Hcells; assumption.
    + apply updateEntry_total_le_40; assumption.
  - assert (Hcell : ∀ e d, d ∈ DAYS →
              get (updateEntry_row (entries st) id field value e).1 d = get e d).
    { intros e d Hd. unfold get. rewrite updateEntry_row_frame; [reflexivity|].
      intros ->. contradiction. }
    split; [rewrite Hids; exact Hnd|]. split.
    + intros e' d Hin Hd. rewrite entries_updateEntry in Hin.
      apply list_elem_of_fmap in Hin as (e & -> & Hin).
      rewrite Hcell by exact Hd. apply Hcells; assumption.
    + rewrite entries_updateEntry, totalWeekHours_map; [exact Hsum|].
      intros e _. rewrite !entryTotal_days.
      rewrite !Hcell by (rewrite list_elem_of_In; simpl; tauto). reflexivity.
Qed.

Lemma blankEntry_cells (uid project businessUnit : JsVal) (d : string) :
  d ∈ DAYS → get (blankEntry uid project businessUnit) d = JsStr "".
Proof.
  intros Hd. unfold DAYS in Hd.
  repeat (apply elem_of_cons in Hd as [-> | Hd]); [| | | | |inversion Hd]; reflexivity.
Qed.

Lemma staging_step_capped (st st' : State) :
  Spec.staging_step st st' → Spec.capped (entries st) → Spec.capped (entries st').
Proof.
  intros Hstep Hc. destruct Hstep as [id field value Hf | uid project bu Hfresh | ok id | uid project bu].
  - apply updateEntry_capped; assumption.
  - destruct Hc as (Hnd & Hcells & Hsum). cbn [addRow setEntries entries].
    split; [|split].
    + rewrite map_app. cbn [map]. apply NoDup_app. split; [exact Hnd|]. split.
      * intros x Hx Hx'. apply list_elem_of_singleton in Hx'. subst x.
        apply Hfresh. exact Hx.
      * apply NoDup_singleton.
    + intros e d He Hd. apply elem_of_app in He as [He | He].
      * apply Hcells; assumption.
      * apply list_elem_of_singleton in He. subst e.
        rewrite blankEntry_cells by exact Hd. reflexivity.
    + rewrite totalWeekHours_app, totalWeekHours_cons, totalWeekHours_nil.
      change (entryTotal (blankEntry uid project bu)) with 0. lia.
  - rewrite removeRow_entries.
    destruct (bool_decide _); [exact Hc|]. destruct (negb ok); [exact Hc|].
    apply capped_filter. exact Hc.
  - cbn [clearEntries setEntries entries]. split; [|split].
    + cbn [map]. apply NoDup_singleton.
    + intros e d He Hd. apply list_elem_of_singleton in He. subst e.
      rewrite blankEntry_cells by exact Hd. reflexivity.
    + rewrite totalWeekHours_cons, totalWeekHours_nil.
      change (entryTotal (blankEntry uid project bu)) with 0. lia.
Qed.

(** X6.  The weekly cap is an invariant of the staging area: from a
    state with distinct row ids, non-negative cells and at most 40
    hours, every sequence of [updateEntry] on the editable fields,
    [addRow] with a fresh id, [removeRow] and [clearEntries] ends in
    such a state, so at most 40 hours.  ([duplicateRow] is left out:
    it applies no cap.) *)
Theorem staging_cap_invariant (st st' : State) :
  rtc Spec.staging_step st st' →
  Spec.capped (entries st) →
  Spec.capped (entries st') ∧ totalWeekHours (entries st') ≤ 40.
Proof.
  intros Hsteps Hc.
  assert (Hc' : Spec.capped (entries st')).
  { induction Hsteps as [st | st st1 st2 Hstep _ IH]; [exact Hc|].
    apply IH. apply (staging_step_capped st st1 Hstep Hc). }
  split; [exact Hc' | apply Hc'].
Qed.

Lemma staging_cap_invariant_witness :
  let st0 := Sample.state "Alice Silva" [blankEntry (JsStr "a") (JsStr "Google – Brand Film") (JsStr "Branding")] in
  let st1 := updateEntry (JsStr "a") "Mon" "24" st0 in
  let st2 := addRow (blankEntry (JsStr "b") (JsStr "Stone – Investor Day") (JsStr "Branding")) st1 in
  let st3 := updateEntry (JsStr "b") "Tue" "24" st2 in
  totalWeekHours (entries st3) ≤ 40.
Proof.
  refine (proj2 (staging_cap_invariant
                   (Sample.state "Alice Silva"
                      [blankEntry (JsStr "a") (JsStr "Google – Brand Film") (JsStr "Branding")])
                   _ _ _)).
  - eapply rtc_l; [apply (Spec.step_updateEntry _ (JsStr "a") "Mon" "24")|].
    { rewrite list_elem_of_In. simpl. tauto. }
    eapply rtc_l; [apply (Spec.step_addRow _ (JsStr "b") (JsStr "Stone – Investor Day")
                            (JsStr "Branding"))|].
    { rewrite list_elem_of_In. vm_compute. intuition discriminate. }
    eapply rtc_l; [apply (Spec.step_updateEntry _ (JsStr "b") "Tue" "24")|].
    { rewrite list_elem_of_In. simpl. tauto. }
    apply rtc_refl.
  - split; [|split].
    + apply (bool_decide_unpack _). vm_compute. exact I.
    + intros e d He Hd. apply list_elem_of_singleton in He. subst e.
      rewrite blankEntry_cells by exact Hd. reflexivity.
    + vm_compute. discriminate.
Defined.

End StagingActions.
(** ** Dashboard views *)

Section Weights.
Import Js JsData.

Lemma weight_map_set {V} (w : V → Z) (d : V) (k : JsVal) (v : V) (m : JsMap V) :
  w d = 0 →
  Spec.weight w (map_set k v m)
  = Spec.weight w m - w (default d (map_get k m)) + w v.
Proof.
  intros Hd. induction m as [|[k' v'] m IH]; cbn [map_set map_get Spec.weight foldr snd].
  - cbn. lia.
  - destruct (same_value_zero k' k); cbn [Spec.weight foldr snd default].
    + unfold id. lia.
    + fold (Spec.weight w (map_set k v m)). fold (Spec.weight w m). lia.
Qed.

Lemma map_fst_map_set {V} (k : JsVal) (v : V) (m : JsMap V) :
  map fst (map_set k v m) = set_add k (map fst m).
Proof.
  unfold set_add. induction m as [|[k' v'] m IH]; [reflexivity|].
  cbn [map_set map fst existsb].
  unfold same_value_zero at 1 2.
  rewrite (bool_decide_ext (k' = k) (k = k')) by (split; congruence).
  destruct (bool_decide (k = k')) eqn:Hk; [reflexivity|].
  cbn [orb map fst]. rewrite IH.
  destruct (existsb (same_value_zero k) (map fst m)); reflexivity.
Qed.

End Weights.

Section DashboardViews.
Import Js JsData Platform Dashboard.

Lemma weight_groupTotals_step (key : string) (m : JsMap Agg) (r : option obj) :
  Spec.weight agg_total (groupTotals_step key m r)
  = Spec.weight agg_total m + number_or_0 (get_opt r "Total").
Proof.
  unfold groupTotals_step. cbv zeta.
  set (k := or_else (get_opt r key) (JsStr "—")).
  rewrite (weight_map_set agg_total (mkAgg k 0 [] []) k) by reflexivity.
  cbn [agg_total]. lia.
Qed.

Lemma weight_groupTotals_fold (key : string) (rows : list (option obj)) (m : JsMap Agg) :
  Spec.weight agg_total (fold_left (groupTotals_step key) rows m)
  = Spec.weight agg_total m + Spec.sum_Total rows.
Proof.
  revert m. induction rows as [|r rows IH]; intros m; cbn [fold_left].
  - unfold Spec.sum_Total. cbn. lia.
  - rewrite IH, weight_groupTotals_step. unfold Spec.sum_Total. cbn [foldr]. lia.
Qed.

(** The buckets account for every hour of the rows. *)
Lemma sum_totals_groupTotals (rows : list (option obj)) (key : string) :
  Spec.sum_totals (groupTotals rows key) = Spec.sum_Total rows.
Proof.
  unfold groupTotals.
  pose proof (weight_groupTotals_fold key rows []) as Hw.
  change (Spec.weight agg_total []) with 0 in Hw. rewrite Z.add_0_l in Hw.
  rewrite <- Hw. generalize (fold_left (groupTotals_step key) rows []).
  intros m. induction m as [|[k a] m IH]; [reflexivity|].
  cbn [map Spec.sum_totals Spec.weight foldr total snd].
  fold (Spec.sum_totals (map (λ x : JsVal * Agg,
                                  mkBucket (agg_name x.2) (agg_total x.2)
                                           (length (people x.2)) (length (projects x.2))) m)).
  fold (Spec.weight agg_total m). rewrite IH. reflexivity.
Qed.

Lemma sum_totals_Permutation (l1 l2 : list Bucket) :
  l1 ≡ₚ l2 → Spec.sum_totals l1 = Spec.sum_totals l2.
Proof.
  intros Hp. induction Hp as [|x l l' _ IH|x y l|l l' l'' _ IH1 _ IH2];
    cbn [Spec.sum_totals foldr] in *; [reflexivity | | lia | congruence].
  fold (Spec.sum_totals l). fold (Spec.sum_totals l'). lia.
Qed.

Lemma sum_Total_Some (rows : list obj) :
  Spec.sum_Total (map Some rows) = Spec.sum_hours rows.
Proof. induction rows as [|r rows IH]; [reflexivity|]. cbn. f_equal. exact IH. Qed.

Lemma sorted_view (rows : list obj) (key : string) :
  let view := sort (λ a b, total b - total a) (groupTotals (map Some rows) key) in
  view ≡ₚ groupTotals (map Some rows) key
  ∧ StronglySorted (λ a b, total b ≤ total a) view
  ∧ Spec.sum_totals view = Spec.sum_hours rows.
Proof.
  cbv zeta. split; [apply sort_Permutation|]. split.
  - apply Sorted_StronglySorted; [intros a b c Hab Hbc; lia|].
    apply sort_Sorted; intros a b Hc; lia.
  - rewrite (sum_totals_Permutation _ _ (sort_Permutation _ _)).
    rewrite sum_totals_groupTotals. apply sum_Total_Some.
Qed.

(** X7.  The three views of the dashboard, by person, by project and
    by business unit, are each the buckets of [groupTotals] in
    descending order of total, and the totals of each view add up to
    the hours of all the rows. *)
Theorem dashboard_views_account_for_hours (rows : list obj) :
  (byPerson rows ≡ₚ groupTotals (map Some rows) "Person"
   ∧ StronglySorted (λ a b, total b ≤ total a) (byPerson rows)
   ∧ Spec.sum_totals (byPerson rows) = Spec.sum_hours rows)
  ∧ (byProject rows ≡ₚ groupTotals (map Some rows) "Project"
     ∧ StronglySorted (λ a b, total b ≤ total a) (byProject rows)
     ∧ Spec.sum_totals (byProject rows) = Spec.sum_hours rows)
  ∧ (byBU rows ≡ₚ groupTotals (map Some rows) "Business_Unit"
     ∧ StronglySorted (λ a b, total b ≤ total a) (byBU rows)
     ∧ Spec.sum_totals (byBU rows) = Spec.sum_hours rows).
Proof. split; [|split]; apply sorted_view. Qed.

(** X8.  [filteredDb] holds exactly the rows that match the selected
    person and the selected project, an empty selection matching every
    row. *)
Theorem filteredDb_selects (db : list obj) (personFilter projectFilter : JsVal) :
  ∀ r, r ∈ filteredDb db personFilter projectFilter
       ↔ r ∈ db
         ∧ (truthy personFilter = true → strict_eq (get r "Person") personFilter = true)
         ∧ (truthy projectFilter = true → strict_eq (get r "Project") projectFilter = true).
Proof.
  intros r. unfold filteredDb. cbv zeta.
  destruct (truthy personFilter), (truthy projectFilter);
    rewrite ?list_elem_of_In, ?filter_In, ?list_elem_of_In, ?filter_In; intuition congruence.
Qed.

End DashboardViews.

Section MonthlyPct.
Import Js JsData Platform Dashboard.

Lemma sum_hours_filter (p : obj → bool) (l : list obj) :
  Forall (λ r, 0 ≤ number_or_0 (get r "Total")) l →
  0 ≤ Spec.sum_hours (List.filter p l) ≤ Spec.sum_hours l.
Proof.
  induction l as [|r l IH]; intros Hl; [cbn; lia|].
  apply Forall_cons in Hl as [Hr Hl]. specialize (IH Hl).
  cbn [List.filter]. unfold Spec.sum_hours in *.
  destruct (p r); cbn [foldr]; lia.
Qed.

Lemma Forall_filter_nonneg (p : obj → bool) (l : list obj) :
  Forall (λ r, 0 ≤ number_or_0 (get r "Total")) l →
  Forall (λ r, 0 ≤ number_or_0 (get r "Total")) (List.filter p l).
Proof.
  rewrite !Forall_forall. intros Hl r Hr. apply Hl.
  apply list_elem_of_In, filter_In in Hr. apply list_elem_of_In, Hr.
Qed.

(** X9.  When no row has a negative [Total] and the hours sum to at
    most 2^44, every percentage [monthlyProportion] reports is an
    integer from 0 to 100 nearest to the exact share of the month, the
    share rounded half up whenever it is not at a half, and the hours
    of a project are between 0 and the month total. *)
Theorem monthlyProportion_pct_nearest `{JsDate} (db : list obj) :
  Forall (λ r, 0 ≤ number_or_0 (get r "Total")) db →
  Spec.sum_hours db ≤ 2 ^ 44 →
  Forall (λ row,
            Forall (λ s,
                      0 ≤ hours s ≤ month_total row
                      ∧ ∃ p, pct s = JsInt p
                             ∧ 0 ≤ p ≤ 100
                             ∧ Z.abs (200 * hours s - 2 * month_total row * p)
                               ≤ month_total row
                             ∧ ((200 * hours s + month_total row) mod (2 * month_total row) ≠ 0
                                → p = Spec.round_half_up (100 * hours s) (month_total row)))
                   (month_projects row))
         (monthlyProportion db).
Proof.
  intros Hdb Hsum. rewrite monthlyProportion_rows.
  apply Forall_fmap, Forall_forall. intros mk _.
  destruct (month_rows_of_row db mk) as (Htotal & Hperm & _ & Hpct).
  unfold compose. cbv beta zeta in *.
  revert Htotal Hperm Hpct. generalize (Spec.month_row_of db mk).
  intros row Htotal Hperm Hpct.
  set (rows := Spec.month_rows (month row) db) in *.
  assert (Hrows : Forall (λ r, 0 ≤ number_or_0 (get r "Total")) rows).
  { apply Forall_filter_nonneg. exact Hdb. }
  assert (Ht : 0 ≤ month_total row ≤ 2 ^ 44).
  { rewrite Htotal. pose proof (sum_hours_filter
      (λ r, bool_decide (Spec.month_key r = month row)) db Hdb) as Hle.
    fold (Spec.month_rows (month row) db) in Hle. fold rows in Hle. lia. }
  rewrite Forall_forall in Hpct. apply Forall_forall. intros s Hs.
  assert (Hh : 0 ≤ hours s ≤ month_total row).
  { assert (Hin : (share_name s, hours s) ∈ Spec.project_hours_of rows).
    { rewrite <- Hperm. apply list_elem_of_fmap. exists s. split; [reflexivity | exact Hs]. }
    unfold Spec.project_hours_of in Hin.
    apply list_elem_of_fmap in Hin as (p & Heq & _). injection Heq as _ ->.
    rewrite Htotal. apply sum_hours_filter. exact Hrows. }
  split; [exact Hh|]. rewrite (Hpct s Hs).
  destruct (decide (month_total row = 0)) as [Hz | Hnz].
  - rewrite Hz in *. assert (hours s = 0) as -> by lia.
    exists 0. split; [reflexivity|]. split; [lia|]. split; [reflexivity|].
    intros _. reflexivity.
  - destruct (percent_nearest (hours s) (month_total row) Hh ltac:(lia))
      as (p & Hp & Hnear & Hhalf).
    exists p. split; [exact Hp|]. split; [|split; assumption].
    clear - Hnear Hh Ht Hnz. nia.
Qed.

End MonthlyPct.

Section MonthlyPctWitness.
Import Js JsData Platform Dashboard RefHost.

Lemma monthlyProportion_pct_nearest_witness :
  let db := [ Sample.db_row "Alice Silva" "Google – Brand Film" "2025-08-04" 32 1 23;
              Sample.db_row "Alice Silva" "Stone – Investor Day" "2025-08-04" 32 2 17 ] in
  Forall (λ row,
            Forall (λ s,
                      0 ≤ hours s ≤ month_total row
                      ∧ ∃ p, pct s = JsInt p
                             ∧ 0 ≤ p ≤ 100
                             ∧ Z.abs (200 * hours s - 2 * month_total row * p)
                               ≤ month_total row
                             ∧ ((200 * hours s + month_total row) mod (2 * month_total row) ≠ 0
                                → p = Spec.round_half_up (100 * hours s) (month_total row)))
                   (month_projects row))
         (monthlyProportion db).
Proof.
  apply (@monthlyProportion_pct_nearest utc_date).
  - repeat constructor; vm_compute; discriminate.
  - vm_compute. discriminate.
Defined.

End MonthlyPctWitness.

Section WeeklyPerson.
Import Js JsData Platform Dashboard.
Context `{JsDate, JsLocale}.

Lemma weeklyPerson_fold (personFilter : JsVal) (db : list obj) (acc : JsMap Z * JsMap JsVal) :
  let out := fold_left (weeklyPerson_step personFilter) db acc in
  Spec.weight id out.1 = Spec.weight id acc.1 + Spec.sum_hours (Spec.person_rows personFilter db)
  ∧ map fst out.1
    = fold_left (λ ks r, set_add (JsStr (toWeekKey r)) ks)
                (Spec.person_rows personFilter db) (map fst acc.1).
Proof.
  cbv zeta. revert acc. induction db as [|r db IH]; intros [m weeks].
  - cbn. split; [lia | reflexivity].
  - cbn [fold_left]. unfold Spec.person_rows in *. cbn [List.filter].
    unfold weeklyPerson_step at 2 4.
    destruct (strict_eq (get r "Person") personFilter) eqn:Hr; cbn [negb].
    + destruct (IH (map_set (JsStr (toWeekKey r))
                      (default 0 (map_get (JsStr (toWeekKey r)) m)
                       + number_or_0 (get r "Total")) m,
                    map_set (JsStr (toWeekKey r))
                      (or_else (get r "Week_Start") (JsStr (toWeekKey r))) weeks))
        as [Hw Hk].
      cbn [fst] in *. split.
      * rewrite Hw, (weight_map_set id 0) by reflexivity.
        unfold Spec.sum_hours, id. cbn [foldr]. lia.
      * rewrite Hk, map_fst_map_set. reflexivity.
    + apply IH.
Qed.

Lemma NoDup_set_add (x : JsVal) (s : list JsVal) : NoDup s → NoDup (set_add x s).
Proof.
  intros Hs. destruct (decide (x ∈ s)) as [Hin | Hnin].
  - rewrite set_add_in by exact Hin. exact Hs.
  - rewrite set_add_notin by exact Hnin. apply NoDup_app. split; [exact Hs|]. split.
    + intros y Hy Hy'. apply list_elem_of_singleton in Hy'. subst y. contradiction.
    + apply NoDup_singleton.
Qed.

Lemma elem_of_set_add (x y : JsVal) (s : list JsVal) : y ∈ set_add x s ↔ y = x ∨ y ∈ s.
Proof.
  destruct (decide (x ∈ s)) as [Hin | Hnin].
  - rewrite set_add_in by exact Hin. split; [tauto|]. intros [-> | Hy]; assumption.
  - rewrite set_add_notin by exact Hnin. rewrite elem_of_app, list_elem_of_singleton. tauto.
Qed.

Lemma week_keys_fold (rows : list obj) (ks : list JsVal) :
  let out := fold_left (λ ks r, set_add (JsStr (toWeekKey r)) ks) rows ks in
  (NoDup ks → NoDup out)
  ∧ (∀ k, k ∈ out ↔ k ∈ ks ∨ ∃ r, r ∈ rows ∧ k = JsStr (toWeekKey r)).
Proof.
  cbv zeta. revert ks. induction rows as [|r rows IH]; intros ks; cbn [fold_left].
  - split; [tauto|]. intros k. split; [tauto|].
    intros [Hk | (r & Hr & _)]; [exact Hk | inversion Hr].
  - destruct (IH (set_add (JsStr (toWeekKey r)) ks)) as [Hnd Hin]. split.
    + intros Hks. apply Hnd, NoDup_set_add, Hks.
    + intros k. rewrite Hin, elem_of_set_add. split.
      * intros [[-> | Hk] | (r' & Hr' & ->)].
        -- right. exists r. split; [left | reflexivity].
        -- left. exact Hk.
        -- right. exists r'. split; [right; exact Hr' | reflexivity].
      * intros [Hk | (r' & Hr' & ->)]; [left; right; exact Hk|].
        apply elem_of_cons in Hr' as [-> | Hr'].
        -- left. left. reflexivity.
        -- right. exists r'. split; [exact Hr' | reflexivity].
Qed.

Lemma sum_points_Permutation (l1 l2 : list WeekPoint) :
  l1 ≡ₚ l2 → Spec.sum_points l1 = Spec.sum_points l2.
Proof.
  intros Hp. induction Hp as [|x l l' _ IH|x y l|l l' l'' _ IH1 _ IH2];
    cbn [Spec.sum_points foldr] in *; [reflexivity | | lia | congruence].
  fold (Spec.sum_points l). fold (Spec.sum_points l'). lia.
Qed.

(** X10.  [weeklyPersonSeries] is [null] when no person is selected;
    otherwise it has one point for each week key of the rows of the
    person, and the totals of the points add up to the hours of those
    rows. *)
Theorem weeklyPersonSeries_accounts_for_hours (db : list obj) (personFilter : JsVal) :
  (truthy personFilter = false → weeklyPersonSeries db personFilter = None)
  ∧ (truthy personFilter = true →
     ∃ points,
       weeklyPersonSeries db personFilter = Some points
       ∧ Spec.sum_points points = Spec.sum_hours (Spec.person_rows personFilter db)
       ∧ NoDup (map wk points)
       ∧ (∀ k, k ∈ map wk points
               ↔ ∃ r, r ∈ db ∧ strict_eq (get r "Person") personFilter = true
                      ∧ k = JsStr (toWeekKey r))).
Proof.
  split; intros Hp; unfold weeklyPersonSeries; rewrite Hp; cbn [negb]; [reflexivity|].
  pose proof (weeklyPerson_fold personFilter db ([], [])) as Hfold. cbv zeta in Hfold.
  destruct (fold_left (weeklyPerson_step personFilter) db ([], [])) as [m weeks].
  cbn [fst] in Hfold. destruct Hfold as [Hw Hk].
  change (Spec.weight id []) with 0 in Hw. rewrite Z.add_0_l in Hw.
  change (map fst []) with (@nil JsVal) in Hk.
  eexists. split; [reflexivity|].
  set (mk := λ kv : JsVal * Z,
               mkWeekPoint kv.1 kv.2 (default JsUndefined (map_get kv.1 weeks))).
  set (cmp := λ a b, localeCompare (ToString (dateKey a)) (ToString (dateKey b))).
  assert (Hkeys : map wk (sort cmp (map mk m)) ≡ₚ map fst m).
  { rewrite sort_Permutation, <- list_fmap_compose.
    rewrite (map_ext (wk ∘ mk) fst) by reflexivity. reflexivity. }
  destruct (week_keys_fold (Spec.person_rows personFilter db) []) as [Hnd Hin].
  rewrite <- Hk in Hnd, Hin.
  split; [|split].
  - rewrite (sum_points_Permutation _ _ (sort_Permutation cmp (map mk m))), <- Hw.
    clear. induction m as [|[k v] m IH]; [reflexivity|].
    cbn [map Spec.sum_points Spec.weight foldr]. fold (Spec.sum_points (map mk m)).
    fold (Spec.weight id m). rewrite IH. reflexivity.
  - rewrite Hkeys. apply Hnd, NoDup_nil_2.
  - intros k. rewrite Hkeys, Hin. unfold Spec.person_rows. split.
    + intros [Hk' | (r & Hr & ->)]; [inversion Hk'|].
      apply list_elem_of_In, filter_In in Hr as [Hr Hperson].
      exists r. split; [apply list_elem_of_In; exact Hr|]. split; [exact Hperson | reflexivity].
    + intros (r & Hr & Hperson & ->). right. exists r. split; [|reflexivity].
      apply list_elem_of_In, filter_In. split; [apply list_elem_of_In; exact Hr | exact Hperson].
Qed.

End WeeklyPerson.

Section WeeklyPersonWitness.
Import Js JsData Platform Dashboard RefHost.

Lemma weeklyPersonSeries_accounts_for_hours_witness :
  let db := [ Sample.db_row "Alice Silva" "Google – Brand Film" "2025-08-04" 32 1 8;
              Sample.db_row "Alice Silva" "Stone – Investor Day" "2025-08-04" 32 2 5 ] in
  ∃ points,
    weeklyPersonSeries db (JsStr "Alice Silva") = Some points
    ∧ Spec.sum_points points = 13.
Proof.
  destruct (proj2 (@weeklyPersonSeries_accounts_for_hours utc_date code_unit_locale
                     [ Sample.db_row "Alice Silva" "Google – Brand Film" "2025-08-04" 32 1 8;
                       Sample.db_row "Alice Silva" "Stone – Investor Day" "2025-08-04" 32 2 5 ]
                     (JsStr "Alice Silva")) eq_refl)
    as (points & Hseries & Hsum & _).
  exists points. split; [exact Hseries|]. rewrite Hsum. vm_compute. reflexivity.
Defined.

End WeeklyPersonWitness.

Section Remote.
Import Js JsData Timesheet.

(** X11.  [mapFromSupabase] undoes [mapToSupabase] on the sixteen
    columns they share; [mapToSupabase] does not send [total], and the
    row read back takes [Total] from the remote column while its
    weekday sum is that of the row sent. *)
Theorem mapFromSupabase_mapToSupabase (row : obj) (total : JsVal) :
  let back := mapFromSupabase (<["total" := total]> (mapToSupabase row)) in
  Forall (λ k, get back k = get row k)
         ["ID"; "Year"; "ISO_Week"; "Week_Start"; "Person"; "Project"; "Business_Unit";
          "Mon"; "Tue"; "Wed"; "Thu"; "Fri"; "Sat"; "Sun"; "Notes"; "Created_At"]
  ∧ get back "Total" = total
  ∧ mapToSupabase row !! "total" = None
  ∧ entryTotal back = entryTotal row.
Proof.
  cbv zeta. split; [|split; [|split]].
  - repeat (apply Forall_cons; split; [vm_compute; reflexivity|]). apply Forall_nil_2.
  - vm_compute. reflexivity.
  - vm_compute. reflexivity.
  - rewrite !entryTotal_days. reflexivity.
Qed.

End Remote.

(** ** Identifiers of committed rows *)

Section Ids.
Import Js JsData Timesheet.

Lemma row_id_inj (st : State) (i j : nat) : Spec.row_id st i = Spec.row_id st j → i = j.
Proof.
  unfold Spec.row_id. intros Heq.
  repeat apply (inj (String.app _)) in Heq.
  cbn [ToString] in Heq. apply (inj pretty) in Heq. lia.
Qed.

Lemma indexed_positions (g : nat → nat) (l : list obj) (p : nat * obj → bool) :
  (∀ i j, g i = g j → i = j) →
  NoDup (map fst (List.filter p (imap (λ i e, (g i, e)) l)))
  ∧ ∀ ie, ie ∈ List.filter p (imap (λ i e, (g i, e)) l) → ∃ i, ie.1 = g i.
Proof.
  revert g. induction l as [|e l IH]; intros g Hg.
  - split; [constructor | intros ie Hie; inversion Hie].
  - cbn [imap List.filter].
    destruct (IH (g ∘ S)) as [Hnd Hidx].
    { intros i j Hij. apply Hg in Hij. lia. }
    change (imap ((λ i e0, (g i, e0)) ∘ S) l) with (imap (λ i e0, ((g ∘ S) i, e0)) l).
    destruct (p (g 0%nat, e)).
    + split.
      * cbn [map fst]. apply NoDup_cons. split; [|exact Hnd].
        intros Hin. apply list_elem_of_fmap in Hin as (ie & Heq & Hin).
        destruct (Hidx ie Hin) as (i & Hi). rewrite <- Heq in Hi.
        apply Hg in Hi. discriminate.
      * intros ie Hie. apply elem_of_cons in Hie as [-> | Hie]; [exists 0%nat; reflexivity|].
        destruct (Hidx ie Hie) as (i & Hi). exists (S i). exact Hi.
    + split; [exact Hnd|]. intros ie Hie.
      destruct (Hidx ie Hie) as (i & Hi). exists (S i). exact Hi.
Qed.

(** X12.  The rows one commit appends have pairwise distinct
    identifiers, and there are at most as many as staging entries. *)
Theorem appendToDatabase_ids_distinct (createdAt weekStartStr : string) (st : State) :
  truthy (person st) = true →
  ∃ rows,
    db (appendToDatabase createdAt weekStartStr st) = (db st ++ rows)%list
    ∧ NoDup (map (λ r, get r "ID") rows)
    ∧ (length rows ≤ length (entries st))%nat.
Proof.
  intros Hp.
  exists (mjoin (imap (commitRow createdAt weekStartStr st) (entries st))).
  split; [apply db_appendToDatabase; exact Hp|].
  pose proof (commit_rows_indexed createdAt weekStartStr st id (entries st)) as Hall.
  destruct (indexed_positions id (entries st) (λ ie, 0 <? entryTotal ie.2))
    as [Hnd _]; [intros i j Hij; exact Hij|].
  set (l := List.filter (λ ie : nat * obj, 0 <? entryTotal ie.2)
                        (imap (λ i e, (id i, e)) (entries st))) in *.
  assert (Hlen : (length l ≤ length (entries st))%nat).
  { unfold l. etransitivity; [apply filter_length_le|]. rewrite length_imap. reflexivity. }
  clearbody l. revert Hall.
  change (imap (λ i e, commitRow createdAt weekStartStr st (id i) e) (entries st))
    with (imap (commitRow createdAt weekStartStr st) (entries st)).
  generalize (mjoin (imap (commitRow createdAt weekStartStr st) (entries st))).
  intros rows Hall. split.
  - assert (Hids : map (λ r, get r "ID") rows = map (λ ie, JsStr (Spec.row_id st ie.1)) l).
    { clear Hnd Hlen. induction Hall as [|ie row l rows (_ & Hid & _) _ IH]; [reflexivity|].
      cbn [map]. rewrite Hid, IH. reflexivity. }
    rewrite Hids.
    assert (Hc : map (λ ie : nat * obj, JsStr (Spec.row_id st ie.1)) l
                 = map (λ i, JsStr (Spec.row_id st i)) (map fst l))
      by (rewrite <- list_fmap_compose; reflexivity).
    rewrite Hc. apply NoDup_fmap_2; [|exact Hnd].
    intros i j [= Hij]. apply (row_id_inj st i j Hij).
  - rewrite <- (Forall2_length _ _ _ Hall). exact Hlen.
Qed.

Lemma appendToDatabase_ids_distinct_witness :
  let st := Sample.state "Alice Silva"
              [ Sample.entry "a" "Google – Brand Film"
                  (JsInt 8) (JsInt 8) (JsStr "") (JsStr "") (JsStr "");
                Sample.entry "b" "Stone – Investor Day"
                  (JsStr "") (JsStr "") (JsStr "") (JsInt 4) (JsStr "") ] in
  ∃ rows,
    db (appendToDatabase "2025-08-08T18:00:00.000Z" "2025-08-04" st) = (db st ++ rows)%list
    ∧ NoDup (map (λ r, get r "ID") rows)
    ∧ (length rows ≤ length (entries st))%nat.
Proof.
  apply (appendToDatabase_ids_distinct "2025-08-08T18:00:00.000Z" "2025-08-04").
  reflexivity.
Defined.

(** X13.  On an entry of scalars the exported [sumWeek] returns the
    [entryTotal] of the component, and 0 on a [null] or [undefined]
    entry. *)
Theorem sumWeek_entryTotal (e : obj) :
  sumWeek (Some (Scalar <$> e)) = Some (entryTotal e)
  ∧ sumWeek None = Some 0.
Proof.
  split; [|reflexivity].
  assert (Hget : ∀ d, get_any (Some (Scalar <$> e)) d = Scalar (get e d)).
  { intros d. unfold get_any, get. rewrite lookup_fmap. destruct (e !! d); reflexivity. }
  unfold sumWeek, entryTotal, DAYS. cbn [fold_left]. rewrite !Hget.
  cbn [Number_of mbind option_bind]. reflexivity.
Qed.

End Ids.
